(** * Verification of the pilot payload executor and workflow interrupt

    A shallow embedding of

      - [pilot/control/payloads/generic.py]  (class [Executor]), and
      - [pilot/workflow/generic.py]          (functions [interrupt], [run]),

    together with the properties of the executor that the design document
    states.  Python strings are byte strings, modelled as [list ascii];
    dictionaries are [gmap]s; everything the executor obtains from outside
    (command results, process launches, the cancellation flag, the clock) is
    read from an explicit [world] that is threaded through the calls. *)

From Stdlib Require Import ZArith QArith Qround Ascii String List Lia Bool.
From stdpp Require Import gmap strings list fin_maps.

Local Open Scope Z_scope.
Local Open Scope nat_scope.

(** ** Python strings *)

(** A Python (byte) string. *)
Abbreviation str := (list ascii).

(** String literals are written with Rocq's string notation and read as
    lists of characters. *)
Coercion list_ascii_of_string : string >-> list.

Module PyStr.

(** [c.isspace()] for a one-byte string: tab, line feed, vertical tab, form
    feed, carriage return and space. *)
Definition isspace (c : ascii) : bool :=
  match c with
  | "009" | "010" | "011" | "012" | "013" | " " => true
  | _ => false
  end%char.

(** [s.lstrip()] *)
Fixpoint lstrip (s : str) : str :=
  match s with
  | [] => []
  | c :: s' => if isspace c then lstrip s' else s
  end.

(** [s.rstrip()] *)
Fixpoint rstrip (s : str) : str :=
  match s with
  | [] => []
  | c :: s' =>
      match rstrip s' with
      | [] => if isspace c then [] else [c]
      | r => c :: r
      end
  end.

(** [s.strip()] *)
Definition strip (s : str) : str := rstrip (lstrip s).

(** [s.endswith(c)] for a one-character suffix. *)
Fixpoint endswith (s : str) (c : ascii) : bool :=
  match s with
  | [] => false
  | [d] => if decide (d = c) then true else false
  | _ :: s' => endswith s' c
  end.

(** [s.startswith(p)] *)
Fixpoint startswith (s p : str) : bool :=
  match p, s with
  | [], _ => true
  | _ :: _, [] => false
  | a :: p', b :: s' => if decide (a = b) then startswith s' p' else false
  end.

(** [s.split(sep)] for a one-character separator: the list of the pieces
    between separators; it always has at least one element. *)
Fixpoint split (sep : ascii) (s : str) : list str :=
  match s with
  | [] => [[]]
  | c :: s' =>
      if decide (c = sep) then [] :: split sep s'
      else match split sep s' with
           | h :: t => (c :: h) :: t
           | [] => [[c]]
           end
  end.

(** The scan of [s.replace(old, new)] for a non-empty [old]: occurrences are
    found from the left and do not overlap; [skip] counts the characters of
    a match just replaced that are still to be passed over. *)
Fixpoint replace_scan (old new : str) (skip : nat) (s : str) : str :=
  match s with
  | [] => []
  | c :: s' =>
      match skip with
      | S k => replace_scan old new k s'
      | O =>
          if startswith s old
          then new ++ replace_scan old new (length old - 1) s'
          else c :: replace_scan old new 0 s'
      end
  end.

(** [s.replace(old, new)].  For an empty [old] Python puts [new] before
    every character and at the end. *)
Definition replace (s old new : str) : str :=
  match old with
  | [] => new ++ flat_map (fun c => c :: new) s
  | _ :: _ => replace_scan old new 0 s
  end.

(** [p in s]: does [p] occur in [s] as a substring. *)
Fixpoint contains (s p : str) : bool :=
  startswith s p ||
  match s with
  | [] => false
  | _ :: s' => contains s' p
  end.

(** A string made of white space only. *)
Definition blank (s : str) : Prop := forallb isspace s = true.

(** [p] occurs in [s] as a contiguous substring. *)
Definition occurs_in (p s : str) : Prop := exists u v, s = u ++ p ++ v.

End PyStr.

(** ** [Executor.extract_setup] *)

Definition extract_setup (cmd : str) : str :=
  let cmd := PyStr.strip cmd in
  let cmd := if PyStr.endswith cmd ";" then removelast cmd else cmd in
  let last_bit := List.last (PyStr.split ";" cmd) [] in
  let setup := PyStr.replace cmd (PyStr.strip last_bit) [] in
  setup.


(** The shape of a command with a distinguished final clause.  The stripped
    command consists of the clauses before the final one ([pre], empty or
    ending in a semicolon), the final clause [p] with the white space [ws1]
    and [ws2] around it, and at most one closing semicolon [tail]. *)
Definition decomposes (cmd pre ws1 p ws2 tail : str) : Prop :=
  PyStr.strip cmd = pre ++ ws1 ++ p ++ ws2 ++ tail /\
  (tail = [] \/ tail = [";"%char]) /\
  (pre = [] \/ PyStr.endswith pre ";" = true) /\
  PyStr.blank ws1 /\ PyStr.blank ws2 /\
  p <> [] /\ PyStr.strip p = p /\ ~ In ";"%char p.

(** ** Data of the executor *)

(** The error codes of [pilot.common.errorcodes.ErrorCodes] that the executor
    names, and any other code (such as the one carried by a
    [PilotException]). *)
Inductive errorcode :=
| PREPROCESSFAILURE
| POSTPROCESSFAILURE
| UNKNOWNPAYLOADFAILURE
| ErrorCode (n : Z).

(** The diagnostic text that belongs to an error code. *)
Inductive errordiag := ErrorMessage (code : errorcode).

(** Python exceptions that the executor handles or lets through. *)
Inductive exn :=
| PilotException (code : errorcode)
| OSError
| KeyError
| IndexError
| AttributeError
| UnboundLocalError
| Exception.

(** What [execute(..., returnproc=True)] hands back and the utility table
    stores: a process object, a tuple reporting a failed start (its first
    component is false), or [None]. *)
Inductive handle :=
| Popen (pid : Z)
| FailedTuple
| NoHandle.

(** Python truth value of a handle: only [None] is false. *)
Definition truthy (h : handle) : bool :=
  match h with NoHandle => false | _ => true end.

(** [signal.SIGTERM], [signal.SIGKILL], [signal.SIGINT]. *)
Definition SIGINT : Z := 2%Z.
Definition SIGKILL : Z := 9%Z.
Definition SIGTERM : Z := 15%Z.

(** The four extension points of [pilot.util.constants]. *)
Inductive utility_order :=
| UTILITY_BEFORE_PAYLOAD
| UTILITY_WITH_PAYLOAD
| UTILITY_AFTER_PAYLOAD_STARTED
| UTILITY_AFTER_PAYLOAD_FINISHED.

(** The timing labels of [pilot.util.constants]. *)
Inductive timing_label :=
| PILOT_PRE_SETUP
| PILOT_POST_SETUP
| PILOT_PRE_PAYLOAD
| PILOT_POST_PAYLOAD.

(** A non-empty dictionary returned by [user.get_utility_commands]. *)
Record cmd_dictionary := { command : str; args : str }.

(** An entry of [job.utilities]: [[proc, launches, command]]. *)
Record utility := { ut_proc : handle; ut_launches : nat; ut_command : str }.

(** The fields of the job object that the executor reads or writes. *)
Record JobData := {
  jobid : str;
  workdir : str;
  setup : str;
  jobparams : str;
  state : str;
  pid : Z;
  pgrp : Z;
  piloterrorcodes : list errorcode;
  piloterrordiags : list errordiag;
  utilities : gmap str utility;
  containeroptions : gmap str str;
  is_hpo : bool
}.

Definition set_setup (v : str) (j : JobData) : JobData :=
  {| jobid := jobid j; workdir := workdir j; setup := v;
     jobparams := jobparams j; state := state j; pid := pid j; pgrp := pgrp j;
     piloterrorcodes := piloterrorcodes j; piloterrordiags := piloterrordiags j;
     utilities := utilities j; containeroptions := containeroptions j;
     is_hpo := is_hpo j |}.

Definition set_jobparams (v : str) (j : JobData) : JobData :=
  {| jobid := jobid j; workdir := workdir j; setup := setup j;
     jobparams := v; state := state j; pid := pid j; pgrp := pgrp j;
     piloterrorcodes := piloterrorcodes j; piloterrordiags := piloterrordiags j;
     utilities := utilities j; containeroptions := containeroptions j;
     is_hpo := is_hpo j |}.

Definition set_state (v : str) (j : JobData) : JobData :=
  {| jobid := jobid j; workdir := workdir j; setup := setup j;
     jobparams := jobparams j; state := v; pid := pid j; pgrp := pgrp j;
     piloterrorcodes := piloterrorcodes j; piloterrordiags := piloterrordiags j;
     utilities := utilities j; containeroptions := containeroptions j;
     is_hpo := is_hpo j |}.

Definition set_pid (v : Z) (j : JobData) : JobData :=
  {| jobid := jobid j; workdir := workdir j; setup := setup j;
     jobparams := jobparams j; state := state j; pid := v; pgrp := pgrp j;
     piloterrorcodes := piloterrorcodes j; piloterrordiags := piloterrordiags j;
     utilities := utilities j; containeroptions := containeroptions j;
     is_hpo := is_hpo j |}.

Definition set_pgrp (v : Z) (j : JobData) : JobData :=
  {| jobid := jobid j; workdir := workdir j; setup := setup j;
     jobparams := jobparams j; state := state j; pid := pid j; pgrp := v;
     piloterrorcodes := piloterrorcodes j; piloterrordiags := piloterrordiags j;
     utilities := utilities j; containeroptions := containeroptions j;
     is_hpo := is_hpo j |}.

Definition set_pilot_errors (v : list errorcode * list errordiag) (j : JobData)
  : JobData :=
  {| jobid := jobid j; workdir := workdir j; setup := setup j;
     jobparams := jobparams j; state := state j; pid := pid j; pgrp := pgrp j;
     piloterrorcodes := fst v; piloterrordiags := snd v;
     utilities := utilities j; containeroptions := containeroptions j;
     is_hpo := is_hpo j |}.

Definition set_utilities (v : gmap str utility) (j : JobData) : JobData :=
  {| jobid := jobid j; workdir := workdir j; setup := setup j;
     jobparams := jobparams j; state := state j; pid := pid j; pgrp := pgrp j;
     piloterrorcodes := piloterrorcodes j; piloterrordiags := piloterrordiags j;
     utilities := v; containeroptions := containeroptions j;
     is_hpo := is_hpo j |}.

(** ** What the executor does to the outside *)

Inductive loglevel := WARNING | ERROR | FATAL.

(** The actions of the executor that are visible outside it, in the order
    in which they happen. *)
Inductive event :=
| EvTiming (label : timing_label)        (* add_to_pilot_timing *)
| EvExecute (label cmd : str)            (* execute(cmd): run to completion *)
| EvWriteFile (path : str)               (* write_file, succeeded *)
| EvChmod (path : str)                   (* os.chmod(path, 0o755) *)
| EvLaunch (cmd : str)                   (* execute(cmd, returnproc=True) for the payload *)
| EvLaunchUtility (cmd : str)            (* execute(cmd, returnproc=True) for a utility *)
| EvSendState (st : str)                 (* send_state *)
| EvSleep (tenths : nat)                 (* time.sleep *)
| EvKillpg (pgid sig : Z)                (* os.killpg(pgid, sig), delivered *)
| EvKill (pid : Z)                       (* proc.kill(): SIGKILL to that one process *)
| EvPostAction (utcmd : str)             (* user.post_utility_command_action *)
| EvLog (level : loglevel).              (* a log record of level warning or above *)

(** ** The world around the executor

    Everything the executor obtains from outside is read from a [world].
    Calls made once per round of the loop of [run] are indexed by the number
    [it] of that round (the variable [iteration] of [run]); what the operating
    system answers is indexed by the time of the call.  Time is counted in
    tenths of a second from the start of [run]; it advances when the executor
    sleeps and while a command it waits for is running. *)
Record world := {
  (** [pilot.user.<PILOT_USER>.common], the command builder and its hooks *)
  user_get_payload_command : JobData -> str + exn;
  (** [get_utility_commands] may update the job parameters: it answers with
      the dictionary (if any) and the [jobparams] it leaves in the job *)
  user_get_utility_commands :
    nat -> utility_order -> JobData -> (option cmd_dictionary * str) + exn;
  user_get_utility_command_setup : str -> JobData -> str;
  user_get_utility_command_kill_signal : str -> Z;
  (** [post_utility_command_action] is handed the job: it answers with the
      utility table it leaves in the job *)
  user_post_utility_command_action : str -> JobData -> gmap str utility;
  (** [pilot.util.container.execute], waiting for the command: exit code,
      stdout, stderr, and how long the command ran *)
  execute : nat -> str -> str -> Z * str * str * nat;
  (** [pilot.util.container.execute] with [returnproc=True], by
      [usecontainer] *)
  execute_proc : nat -> bool -> str -> handle + exn;
  (** [pilot.util.filehandling.write_file]: [false] when it raises a
      [PilotException] *)
  write_file : nat -> str -> bool;
  (** [os.path.exists] *)
  os_path_exists : nat -> str -> bool;
  (** [os.getpgid(pid)] at a time; [None] when it raises [OSError] *)
  os_getpgid : nat -> Z -> option Z;
  (** [os.killpg(pgid, sig)] at a time; [false] when it raises [OSError] *)
  os_killpg : nat -> Z -> Z -> bool;
  (** [proc.poll()] of the process [pid] at a time *)
  proc_poll : Z -> nat -> option Z;
  (** [args.graceful_stop.is_set()] when it is called at a time.  The
      executor calls it at its flag checks only, and those fall on whole
      tenths of a second of its clock; the instant at which the flag gets
      set is not tied to them (see [set_from]) *)
  graceful_stop_is_set : nat -> bool
}.

(** ** The executor object and the effects of its methods *)

(** The object [errors = ErrorCodes()] that the module creates when it is
    loaded, and to which every call [errors.add_error_code(code)] of the
    executor goes: the codes and the diagnostics it has been given so far.
    It belongs to the module, not to a job. *)
Record ErrorCodes := {
  pilot_error_codes : list errorcode;
  pilot_error_diags : list errordiag
}.

(** The executor ([self]) with the job it owns, the [traces] object, the
    [errors] object of its module, the clock, and the record of what it has
    done so far (latest last). *)
Record Executor := {
  job : JobData;
  traces_pilot_error_code : option errorcode;
  errors : ErrorCodes;
  preprocess_stdout : str;
  preprocess_stderr : str;
  postprocess_stdout : str;
  postprocess_stderr : str;
  clock : nat;
  trace : list event
}.

Definition with_job (f : JobData -> JobData) (s : Executor) : Executor :=
  {| job := f (job s);
     traces_pilot_error_code := traces_pilot_error_code s;
     errors := errors s;
     preprocess_stdout := preprocess_stdout s;
     preprocess_stderr := preprocess_stderr s;
     postprocess_stdout := postprocess_stdout s;
     postprocess_stderr := postprocess_stderr s;
     clock := clock s; trace := trace s |}.

Definition with_errors (e : ErrorCodes) (s : Executor) : Executor :=
  {| job := job s;
     traces_pilot_error_code := traces_pilot_error_code s;
     errors := e;
     preprocess_stdout := preprocess_stdout s;
     preprocess_stderr := preprocess_stderr s;
     postprocess_stdout := postprocess_stdout s;
     postprocess_stderr := postprocess_stderr s;
     clock := clock s; trace := trace s |}.

Definition with_traces_error_code (c : errorcode) (s : Executor) : Executor :=
  {| job := job s;
     traces_pilot_error_code := Some c;
     errors := errors s;
     preprocess_stdout := preprocess_stdout s;
     preprocess_stderr := preprocess_stderr s;
     postprocess_stdout := postprocess_stdout s;
     postprocess_stderr := postprocess_stderr s;
     clock := clock s; trace := trace s |}.

Definition with_preprocess_names (o e : str) (s : Executor) : Executor :=
  {| job := job s;
     traces_pilot_error_code := traces_pilot_error_code s;
     errors := errors s;
     preprocess_stdout := o; preprocess_stderr := e;
     postprocess_stdout := postprocess_stdout s;
     postprocess_stderr := postprocess_stderr s;
     clock := clock s; trace := trace s |}.

Definition with_postprocess_names (o e : str) (s : Executor) : Executor :=
  {| job := job s;
     traces_pilot_error_code := traces_pilot_error_code s;
     errors := errors s;
     preprocess_stdout := preprocess_stdout s;
     preprocess_stderr := preprocess_stderr s;
     postprocess_stdout := o; postprocess_stderr := e;
     clock := clock s; trace := trace s |}.

Definition with_event (ev : event) (s : Executor) : Executor :=
  {| job := job s;
     traces_pilot_error_code := traces_pilot_error_code s;
     errors := errors s;
     preprocess_stdout := preprocess_stdout s;
     preprocess_stderr := preprocess_stderr s;
     postprocess_stdout := postprocess_stdout s;
     postprocess_stderr := postprocess_stderr s;
     clock := clock s; trace := trace s ++ [ev] |}.

Definition with_elapsed (dt : nat) (s : Executor) : Executor :=
  {| job := job s;
     traces_pilot_error_code := traces_pilot_error_code s;
     errors := errors s;
     preprocess_stdout := preprocess_stdout s;
     preprocess_stderr := preprocess_stderr s;
     postprocess_stdout := postprocess_stdout s;
     postprocess_stderr := postprocess_stderr s;
     clock := clock s + dt; trace := trace s |}.

(** How a call ends: it returns, it raises, or (for the loops, which are
    run for a bounded number of rounds) it is still going. *)
Inductive outcome (A : Type) :=
| Return (a : A)
| Raise (e : exn)
| Running.
Arguments Return {A} a.
Arguments Raise {A} e.
Arguments Running {A}.

(** A method: from the object before the call to the way the call ends and
    the object after it.  What has been done before an exception stays
    done. *)
Definition M (A : Type) : Type := Executor -> outcome A * Executor.

Definition ret {A} (a : A) : M A := fun s => (Return a, s).

Definition raise {A} (e : exn) : M A := fun s => (Raise e, s).

Definition bind {A B} (m : M A) (k : A -> M B) : M B :=
  fun s =>
    match m s with
    | (Return a, s') => k a s'
    | (Raise e, s') => (Raise e, s')
    | (Running, s') => (Running, s')
    end.

(** [try: m  except Exception as e: h e] *)
Definition try_except {A} (m : M A) (h : exn -> M A) : M A :=
  fun s =>
    match m s with
    | (Raise e, s') => h e s'
    | r => r
    end.

Definition get : M Executor := fun s => (Return s, s).
Definition get_job : M JobData := fun s => (Return (job s), s).
Definition modify (f : Executor -> Executor) : M unit := fun s => (Return tt, f s).
Definition modify_job (f : JobData -> JobData) : M unit := modify (with_job f).
Definition emit (ev : event) : M unit := modify (with_event ev).
Definition now : M nat := fun s => (Return (clock s), s).

(** Sequencing is written with the notations [x ← m; k] and [m;; k]. *)
#[global] Instance M_ret : MRet M := @ret.
#[global] Instance M_bind : MBind M := fun A B k m => bind m k.

(** [time.sleep]: the time passes. *)
Definition sleep (tenths : nat) : M unit :=
  emit (EvSleep tenths);; modify (with_elapsed tenths).

(** ** Helpers of the pilot that the executor calls *)

(** Modelled from the spec: [ErrorCodes.add_error_code] of
    [pilot/common/errorcodes.py] is not among the sources.  The executor
    calls it on the [errors] object of its module with the code alone, so
    the list of the job is not among its arguments.  By the design document
    the code is appended, with its diagnostic, to the error list: here, to
    the list that the object holds, which is what the call returns. *)
Definition add_error_code (code : errorcode) (e : ErrorCodes)
  : (list errorcode * list errordiag) * ErrorCodes :=
  let codes := pilot_error_codes e ++ [code] in
  let diags := pilot_error_diags e ++ [ErrorMessage code] in
  ((codes, diags), {| pilot_error_codes := codes; pilot_error_diags := diags |}).

(** [job.piloterrorcodes, job.piloterrordiags = errors.add_error_code(code)]:
    both lists of the job are assigned what the call returns. *)
Definition record_error (code : errorcode) : M unit :=
  modify (fun s =>
    let r := add_error_code code (errors s) in
    with_job (set_pilot_errors r.1) (with_errors r.2 s)).

(** Modelled from the spec: [set_pilot_state] of [pilot/util/auxiliary.py] is
    not among the sources; it moves the job to the given state. *)
Definition set_pilot_state (st : str) : M unit := modify_job (set_state st).

(** [send_state] of [pilot/control/job.py]: the server is told the state. *)
Definition send_state (st : str) : M unit := emit (EvSendState st).

(** [add_to_pilot_timing] *)
Definition add_to_pilot_timing (label : timing_label) : M unit :=
  emit (EvTiming label).

(** [os.path.join] of two components. *)
Definition path_join (a b : str) : str :=
  if PyStr.startswith b "/" then b
  else match a with
       | [] => b
       | _ => if PyStr.endswith a "/" then a ++ b else a ++ "/" ++ b
       end.

(** ['%s %s' % (d.get('command'), d.get('args'))] *)
Definition command_line (d : cmd_dictionary) : str := command d ++ " " ++ args d.

(** Python truth value of a string and of an integer. *)
Definition nonempty (s : str) : bool := match s with [] => false | _ => true end.
Definition nonzero (n : Z) : bool := negb (n =? 0)%Z.

(** ** The methods of [Executor] *)

Section Executor.

Context (w : world).

Definition pre_setup : M unit := add_to_pilot_timing PILOT_PRE_SETUP.
Definition post_setup : M unit := add_to_pilot_timing PILOT_POST_SETUP.
Definition pre_payload : M unit := add_to_pilot_timing PILOT_PRE_PAYLOAD.
Definition post_payload : M unit := add_to_pilot_timing PILOT_POST_PAYLOAD.

(** [user.get_utility_commands(order=..., job=job)]; the call may update
    the [jobparams] of the job. *)
Definition get_utility_commands (it : nat) (order : utility_order)
  : M (option cmd_dictionary) :=
  j ← get_job;
  match user_get_utility_commands w it order j with
  | inl (d, jobparams') => modify_job (set_jobparams jobparams');; ret d
  | inr e => raise e
  end.

(** [user.post_utility_command_action(utcmd, job)] *)
Definition post_utility_command_action (utcmd : str) : M unit :=
  emit (EvPostAction utcmd);;
  modify_job (fun j => set_utilities (user_post_utility_command_action w utcmd j) j).

Definition utility_before_payload (it : nat) : M str :=
  cmd_dictionary ← get_utility_commands it UTILITY_BEFORE_PAYLOAD;
  match cmd_dictionary with
  | Some d => ret (command_line d)
  | None => ret []
  end.

(** Here [cmd] is assigned only when there is a dictionary, so [return cmd]
    raises without one. *)
Definition utility_with_payload (it : nat) : M str :=
  cmd_dictionary ← get_utility_commands it UTILITY_WITH_PAYLOAD;
  match cmd_dictionary with
  | Some d => ret (command_line d)
  | None => raise UnboundLocalError
  end.

Definition utility_after_payload_started (it : nat) : M unit :=
  cmd_dictionary ← get_utility_commands it UTILITY_AFTER_PAYLOAD_STARTED;
  match cmd_dictionary with
  | Some d =>
      j ← get_job;
      let utilitycommand := user_get_utility_command_setup w (command d) j in
      if negb (nonempty utilitycommand) then emit (EvLog WARNING)
      else
        emit (EvLaunchUtility utilitycommand);;
        match execute_proc w it false utilitycommand with
        | inr _ => emit (EvLog ERROR)
        | inl proc1 =>
            modify_job (fun j =>
              set_utilities
                (<[command d :=
                     {| ut_proc := proc1; ut_launches := 1;
                        ut_command := utilitycommand |}]> (utilities j)) j)
        end
  | None => ret tt
  end.

Definition utility_after_payload_finished (it : nat) : M str :=
  cmd_dictionary ← get_utility_commands it UTILITY_AFTER_PAYLOAD_FINISHED;
  match cmd_dictionary with
  | Some d => ret (command_line d)
  | None => ret []
  end.

(** One [write_file] under [try ... except PilotException]. *)
Definition write_logged (it : nat) (path : str) : M unit :=
  if write_file w it path then emit (EvWriteFile path) else emit (EvLog WARNING).

Definition write_utility_output (it : nat) (workdir step : str) : M unit :=
  let name_stdout := step ++ "_stdout.txt" in
  let name_stderr := step ++ "_stderr.txt" in
  (if decide (step = "preprocess")
   then modify (with_preprocess_names name_stdout name_stderr)
   else if decide (step = "postprocess")
   then modify (with_postprocess_names name_stdout name_stderr)
   else ret tt);;
  write_logged it (path_join workdir (step ++ "_stdout.txt"));;
  write_logged it (path_join workdir (step ++ "_stderr.txt")).

Definition execute_utility_command (it : nat) (cmd label : str) : M Z :=
  let '(exit_code, stdout, stderr, dt) := execute w it label cmd in
  emit (EvExecute label cmd);;
  modify (with_elapsed dt);;
  (if nonzero exit_code then
     emit (EvLog WARNING);;
     let err :=
       if decide (label = "preprocess") then PREPROCESSFAILURE
       else if decide (label = "postprocess") then POSTPROCESSFAILURE
       else UNKNOWNPAYLOADFAILURE in
     if negb (exit_code =? 160)%Z  (* ignore no-more-data-points exit code *)
     then record_error err
     else ret tt
   else ret tt);;
  j ← get_job;
  write_utility_output it (workdir j) label;;
  ret exit_code.

(** [os.getpgid(pid)] *)
Definition getpgid (pid : Z) : M Z :=
  t ← now;
  match os_getpgid w t pid with
  | Some pgid => ret pgid
  | None => raise OSError
  end.

(** [os.killpg(pgid, sig)] *)
Definition killpg (pgid sig : Z) : M unit :=
  t ← now;
  if os_killpg w t pgid sig then emit (EvKillpg pgid sig) else raise OSError.

(** [h.pid] *)
Definition pid_of (h : handle) : M Z :=
  match h with
  | Popen pid => ret pid
  | _ => raise AttributeError
  end.

(** Returns the pid of the process started, or [None]. *)
Definition run_payload (it : nat) (cmd : str) : M (option Z) :=
  pre_payload;;
  _cmd ← utility_with_payload it;
  emit (EvLaunch cmd);;
  match execute_proc w it true cmd with
  | inr _ => emit (EvLog ERROR);; ret None
  | inl FailedTuple => emit (EvLog ERROR);; ret None
  | inl proc =>
      pid ← pid_of proc;
      modify_job (set_pid pid);;
      pgrp ← getpgid pid;
      modify_job (set_pgrp pgrp);;
      set_pilot_state "running";;
      utility_after_payload_started it;;
      ret (Some pid)
  end.

(** The [for i in range(60)] loop of [wait_graceful]; returns [breaker]. *)
Fixpoint flag_checks (n : nat) (pid : Z) : M bool :=
  match n with
  | O => ret false
  | S n' =>
      t ← now;
      if graceful_stop_is_set w t then
        pgid ← getpgid pid;
        killpg pgid SIGTERM;;
        ret true
      else
        sleep 10;;
        flag_checks n' pid
  end.

(** The [while True] loop of [wait_graceful], run for at most [cycles]
    rounds; [exit_code] is the variable of that name. *)
Fixpoint wait_graceful_loop (cycles : nat) (pid : Z) (exit_code : option Z)
  : M (option Z) :=
  match cycles with
  | O => fun s => (Running, s)
  | S cycles' =>
      sleep 1;;
      breaker ← flag_checks 60 pid;
      if breaker : bool then
        sleep 30;;
        emit (EvKill pid);;
        ret exit_code
      else
        t ← now;
        let exit_code := proc_poll w pid t in
        match exit_code with
        | Some _ => ret exit_code
        | None => wait_graceful_loop cycles' pid exit_code
        end
  end.

Definition wait_graceful (cycles : nat) (pid : Z) : M (option Z) :=
  wait_graceful_loop cycles pid None.

Definition get_payload_command : M str :=
  j ← get_job;
  match user_get_payload_command w j with
  | inl cmd => ret cmd
  | inr (PilotException code) =>
      post_setup;;
      emit (EvLog ERROR);;
      record_error code;;
      j ← get_job;
      match piloterrorcodes j with
      | c :: _ => modify (with_traces_error_code c);; emit (EvLog FATAL);; ret []
      | [] => raise IndexError
      end
  | inr e => raise e
  end.

Definition run_preprocess (it : nat) : M Z :=
  cmd_before_payload ←
    try_except (utility_before_payload it)
               (fun e => emit (EvLog ERROR);; raise e);
  if nonempty cmd_before_payload then
    j ← get_job;
    let cmd_before_payload := setup j ++ cmd_before_payload in
    exit_code ← execute_utility_command it cmd_before_payload "preprocess";
    (if (exit_code =? 160)%Z then emit (EvLog FATAL)
     else if nonzero exit_code then
       record_error PREPROCESSFAILURE;;
       emit (EvLog FATAL)
     else
       j ← get_job;
       let path :=
         path_join (workdir j)
           (default ("does_not_exist" : str) (containeroptions j !! ("containerExec" : str))) in
       if os_path_exists w it path then emit (EvChmod path) else ret tt);;
    ret exit_code
  else ret 0%Z.

(** The body of the loop of [stop_utilities], over the keys taken before the
    loop starts. *)
Fixpoint stop_each (keys : list str) : M unit :=
  match keys with
  | [] => ret tt
  | utcmd :: keys' =>
      j ← get_job;
      match utilities j !! utcmd with
      | None => raise KeyError
      | Some u =>
          let utproc := ut_proc u in
          (if truthy utproc then
             let sig := user_get_utility_command_kill_signal w utcmd in
             try_except
               (pid ← pid_of utproc; pgid ← getpgid pid; killpg pgid sig)
               (fun _ => emit (EvLog WARNING));;
             post_utility_command_action utcmd
           else ret tt);;
          stop_each keys'
      end
  end.

(** The keys of a dictionary, in the order in which it lists them. *)
Definition keys (d : gmap str utility) : list str := (map_to_list d).*1.

Definition stop_utilities : M unit :=
  j ← get_job;
  stop_each (keys (utilities j)).

(** How a round of the loop of [run] ends: with [break], or by going
    round again with the command as it stands. *)
Inductive round_end :=
| Break (exit_code : Z)
| Again (cmd : str).

(** One round of the [while True] loop of [run]. *)
Definition run_round (cycles : nat) (it : nat) (cmd : str) : M round_end :=
  j ← get_job;
  let jobparams_pre := jobparams j in
  exit_code ← run_preprocess it;
  j ← get_job;
  let jobparams_post := jobparams j in
  if nonzero exit_code then
    ret (Break (if (exit_code =? 160)%Z then 0%Z else exit_code))
  else
    let cmd :=
      if decide (jobparams_pre = jobparams_post) then cmd
      else PyStr.replace cmd jobparams_pre jobparams_post in
    proc ← run_payload it cmd;
    match proc with
    | None => ret (Break exit_code)
    | Some pid =>
        j ← get_job;
        send_state (state j);;
        exit_code ← wait_graceful cycles pid;
        let state : str :=
          if decide (exit_code = Some 0%Z) then "finished" else "failed" in
        set_pilot_state state;;
        exit_code ←
          match exit_code with
          | None => emit (EvLog WARNING);; ret (-1)%Z
          | Some c => ret c
          end;
        exit_code ←
          (if decide (state = "failed") then ret exit_code
           else
             cmd_after_payload ←
               try_except (c ← utility_after_payload_finished it; ret (Some c))
                          (fun _ => emit (EvLog ERROR);; ret None);
             match cmd_after_payload with
             | Some cmd_after_payload =>
                 if nonempty cmd_after_payload then
                   j ← get_job;
                   let cmd_after_payload := setup j ++ cmd_after_payload in
                   execute_utility_command it cmd_after_payload "postprocess"
                 else ret exit_code
             | None => ret exit_code
             end);
        post_payload;;
        j ← get_job;
        (if decide (utilities j = ∅) then ret tt else stop_utilities);;
        j ← get_job;
        if is_hpo j then ret (Again cmd) else ret (Break exit_code)
    end.

(** The loop of [run], for at most [rounds] rounds. *)
Fixpoint run_loop (rounds cycles : nat) (it : nat) (cmd : str) : M Z :=
  match rounds with
  | O => fun s => (Running, s)
  | S rounds' =>
      r ← run_round cycles it cmd;
      match r with
      | Break exit_code => ret exit_code
      | Again cmd => run_loop rounds' cycles (S it) cmd
      end
  end.

Definition run (rounds cycles : nat) : M Z :=
  pre_setup;;
  cmd ← get_payload_command;
  modify_job (set_setup (extract_setup cmd));;
  post_setup;;
  run_loop rounds cycles 1 cmd.

End Executor.

(** ** The cancellation flag ([pilot/workflow/generic.py]) *)

(** The time [t] of the clock (whole tenths of a second) among all
    instants, which are rational numbers of tenths of a second. *)
Definition at_time (t : nat) : Q := inject_Z (Z.of_nat t).

(** The first time of the clock at or after an instant. *)
Definition first_time (T : Q) : nat := Z.to_nat (Qceiling T).

Module Workflow.

(** [threading.Event]: an internal flag with [set()], [clear()] and
    [is_set()]. *)
Record Event := { flag : bool }.

Definition Event_set (e : Event) : Event := {| flag := true |}.
Definition Event_clear (e : Event) : Event := {| flag := false |}.
Definition Event_is_set (e : Event) : bool := flag e.

(** The arguments object; [graceful_stop] is the shared cancellation flag. *)
Record Args := { graceful_stop : Event }.

(** [signal.__dict__.iteritems()]: the names that the [signal] module
    defines, each with its value, in the order in which the dictionary lists
    them.  (A value that is not a number is equal to no signal number; such
    names are left out.) *)
Definition signal_module : Type := list (str * Z).

(** [[v for v, k in signal.__dict__.iteritems() if k == signum]] *)
Definition names_of (sm : signal_module) (signum : Z) : list str :=
  map fst (List.filter (fun vk => (snd vk =? signum)%Z) sm).

(** [signal.SIGINT]: the value of that name in the module, if it has one. *)
Definition signal_SIGINT (sm : signal_module) : option Z :=
  match List.find (fun vk => bool_decide (fst vk = ("SIGINT" : str))) sm with
  | Some vk => Some (snd vk)
  | None => None
  end.

(** [interrupt(args, signum, frame)].  It first logs the name of the
    signal, taking the first name of the [signal] module whose value is
    [signum]: that is an [IndexError] when there is none, and the flag is
    then not reached.  Otherwise it sets the flag. *)
Definition interrupt (sm : signal_module) (signum : Z) (args : Args)
  : outcome unit * Args :=
  match names_of sm signum with
  | [] => (Raise IndexError, args)
  | _ :: _ => (Return tt, {| graceful_stop := Event_set (graceful_stop args) |})
  end.

(** The pilot process as far as the flag is concerned: the arguments object
    and the table of installed signal handlers. *)
Record Pilot := {
  pilot_args : Args;
  handlers : gmap Z (Z -> Args -> outcome unit * Args)
}.

(** [signal.signal(signal.SIGINT, functools.partial(interrupt, args))], the
    first thing [run(args)] does. *)
Definition install_handler (sm : signal_module) (p : Pilot) : outcome unit * Pilot :=
  match signal_SIGINT sm with
  | Some n =>
      (Return tt,
       {| pilot_args := pilot_args p;
          handlers := <[n := interrupt sm]> (handlers p) |})
  | None => (Raise AttributeError, p)
  end.

(** The threads that [run] starts, each on the same [args]:
    [job.control], [payload.control], [data.control], [lifetime.control]
    and [monitor.control]. *)
Inductive stage :=
| JobControl
| PayloadControl
| DataControl
| LifetimeControl
| MonitorControl.

(** Modelled from the spec: the stage loops [job.control],
    [payload.control], [data.control], [lifetime.control] and
    [monitor.control] of [pilot/control] are not among the sources.  By the
    design document the flag is set at most by the signal handler and
    observed by every loop, which stops once it sees the flag set: a turn of
    a stage loop reads the flag, answers whether the loop goes on, and leaves
    the flag as it is. *)
Definition stage_turn (st : stage) (args : Args) : bool * Args :=
  (negb (Event_is_set (graceful_stop args)), args).

(** The flag check of [Executor.wait_graceful]:
    [args.graceful_stop.is_set()]. *)
Definition supervisor_check (args : Args) : bool * Args :=
  (Event_is_set (graceful_stop args), args).

(** What can happen around the flag while the pilot runs: a signal reaches
    the process, a stage loop makes a turn, or the supervisor of a payload
    checks the flag. *)
Inductive action :=
| Signal (signum : Z)
| Turn (st : stage)
| FlagCheck.

#[global] Instance stage_eq_dec : EqDecision stage.
Proof. solve_decision. Defined.

#[global] Instance action_eq_dec : EqDecision action.
Proof. solve_decision. Defined.

(** A signal for which a handler is installed runs the handler (an
    exception that leaves the handler leaves the arguments object as the
    handler left it); other signals do not reach the arguments object. *)
Definition step (p : Pilot) (a : action) : Pilot :=
  match a with
  | Signal signum =>
      match handlers p !! signum with
      | Some handler =>
          {| pilot_args := snd (handler signum (pilot_args p));
             handlers := handlers p |}
      | None => p
      end
  | Turn st =>
      {| pilot_args := snd (stage_turn st (pilot_args p)); handlers := handlers p |}
  | FlagCheck =>
      {| pilot_args := snd (supervisor_check (pilot_args p)); handlers := handlers p |}
  end.

Definition steps (p : Pilot) (l : list action) : Pilot := fold_left step l p.

Definition is_set (p : Pilot) : bool := Event_is_set (graceful_stop (pilot_args p)).

(** The pilot before [run(args)]: the flag is clear and no handler is
    installed. *)
Definition fresh : Pilot :=
  {| pilot_args := {| graceful_stop := {| flag := false |} |}; handlers := ∅ |}.

(** The pilot when [run(args)] has installed the handler. *)
Definition started (sm : signal_module) : Pilot := snd (install_handler sm fresh).

(** A pilot that behaves as [run] sets it up: whatever handler is installed
    is [interrupt], and it is installed for [signal.SIGINT]. *)
Definition only_interrupt (sm : signal_module) (p : Pilot) : Prop :=
  forall signum handler,
    handlers p !! signum = Some handler ->
    handler = interrupt sm /\ signal_SIGINT sm = Some signum.

(** The flag at the time [t] of the clock when the signals [arrivals]
    (instant, number) reach the pilot. *)
Definition is_set_at (sm : signal_module) (arrivals : list (Q * Z)) (t : nat) : bool :=
  is_set (steps (started sm)
            (map (fun a => Signal (snd a))
                 (List.filter (fun a => Qle_bool (fst a) (at_time t)) arrivals))).

End Workflow.

(** ** Signals and processes

    What the operating system does with the signals of a trace.  A process
    has a pid and a process group; a signal sent to a group reaches every
    member, a signal sent to a pid reaches that process alone; SIGKILL ends
    the process that receives it, another signal ends it unless the process
    survives that signal (it ignores or handles it). *)

Module Posix.

Record process := {
  p_pid : Z;
  p_pgid : Z;
  p_alive : bool;
  p_survives : Z -> bool
}.

Definition receive (sig : Z) (p : process) : process :=
  if (sig =? SIGKILL)%Z || negb (p_survives p sig)
  then {| p_pid := p_pid p; p_pgid := p_pgid p; p_alive := false;
          p_survives := p_survives p |}
  else p.

Definition deliver (procs : list process) (ev : event) : list process :=
  match ev with
  | EvKillpg pgid sig =>
      map (fun p => if (p_pgid p =? pgid)%Z then receive sig p else p) procs
  | EvKill pid =>
      map (fun p => if (p_pid p =? pid)%Z then receive SIGKILL p else p) procs
  | _ => procs
  end.

Definition after (tr : list event) (procs : list process) : list process :=
  fold_left deliver tr procs.

(** Is the process [pid] alive in the table. *)
Definition alive (procs : list process) (pid : Z) : bool :=
  existsb (fun p => (p_pid p =? pid)%Z && p_alive p) procs.

End Posix.

(** ** Reading a trace *)

(** The time slept in a trace, in tenths of a second. *)
Definition slept (tr : list event) : nat :=
  fold_right (fun ev n => match ev with EvSleep d => d + n | _ => n end) 0 tr.

Definition is_sleep (ev : event) : Prop :=
  match ev with EvSleep _ => True | _ => False end.

Definition is_signal (ev : event) : Prop :=
  match ev with EvKillpg _ _ | EvKill _ => True | _ => False end.

Definition is_launch (ev : event) : Prop :=
  match ev with EvLaunch _ => True | _ => False end.

(** One round of [wait_graceful] in which nothing happens: the short sleep
    and sixty checks of the flag, one second apart. *)
Definition quiet_cycle : list event := EvSleep 1 :: repeat (EvSleep 10) 60.

(** [s] with the events [tr] added and the time [dt] passed. *)
Definition advanced (tr : list event) (dt : nat) (s : Executor) : Executor :=
  {| job := job s;
     traces_pilot_error_code := traces_pilot_error_code s;
     errors := errors s;
     preprocess_stdout := preprocess_stdout s;
     preprocess_stderr := preprocess_stderr s;
     postprocess_stdout := postprocess_stdout s;
     postprocess_stderr := postprocess_stderr s;
     clock := clock s + dt; trace := trace s ++ tr |}.

(** ** Concrete jobs and worlds *)

Module Scenario.

(** A fresh job in the work directory [/w]. *)
Definition job0 (hpo : bool) : JobData :=
  {| jobid := "1"; workdir := "/w"; setup := ""; jobparams := "";
     state := "queued"; pid := 0; pgrp := 0;
     piloterrorcodes := []; piloterrordiags := [];
     utilities := ∅; containeroptions := ∅; is_hpo := hpo |}.

(** An executor that has just been made for a job. *)
Definition executor_of (j : JobData) : Executor :=
  {| job := j; traces_pilot_error_code := None;
     errors := {| pilot_error_codes := []; pilot_error_diags := [] |};
     preprocess_stdout := ""; preprocess_stderr := "";
     postprocess_stdout := ""; postprocess_stderr := "";
     clock := 0; trace := [] |}.

Definition exec0 : Executor := executor_of (job0 false).

(** A world given by what varies between the scenarios: the answer of the
    command builder, its utility commands, the results of the commands
    waited for, the result of starting a process, the exit status of the
    processes and the cancellation flag.  Files can be written, no staged
    executable exists, a process is its own group leader, signals can be
    sent, utilities are stopped with SIGTERM and the hook after stopping one
    leaves the utility table alone. *)
Definition make_world
    (payload_command : str + exn)
    (utility_commands : nat -> utility_order -> option cmd_dictionary)
    (results : nat -> str -> Z)
    (started : nat -> bool -> str -> handle + exn)
    (poll : Z -> nat -> option Z)
    (flag : nat -> bool) : world :=
  {| user_get_payload_command := fun _ => payload_command;
     user_get_utility_commands :=
       fun it order j => inl (utility_commands it order, jobparams j);
     user_get_utility_command_setup := fun c _ => c;
     user_get_utility_command_kill_signal := fun _ => SIGTERM;
     user_post_utility_command_action := fun _ j => utilities j;
     execute := fun it label _ => (results it label, [], [], 0);
     execute_proc := started;
     write_file := fun _ _ => true;
     os_path_exists := fun _ _ => false;
     os_getpgid := fun _ pid => Some pid;
     os_killpg := fun _ _ _ => true;
     proc_poll := poll;
     graceful_stop_is_set := flag |}.

(** The only utility command is one to go with the payload. *)
Definition with_payload_only (it : nat) (order : utility_order)
  : option cmd_dictionary :=
  match order with
  | UTILITY_WITH_PAYLOAD => Some {| command := "monitor"; args := "--fast" |}
  | _ => None
  end.

(** Commands before, with and after the payload; no utility process. *)
Definition pre_and_post (it : nat) (order : utility_order)
  : option cmd_dictionary :=
  match order with
  | UTILITY_BEFORE_PAYLOAD => Some {| command := "pre.sh"; args := "-a" |}
  | UTILITY_WITH_PAYLOAD => Some {| command := "monitor"; args := "--fast" |}
  | UTILITY_AFTER_PAYLOAD_STARTED => None
  | UTILITY_AFTER_PAYLOAD_FINISHED => Some {| command := "post.sh"; args := "-b" |}
  end.

(** Every process started is the process 100. *)
Definition starts_100 (it : nat) (usecontainer : bool) (cmd : str) : handle + exn :=
  inl (Popen 100).

(** Starting a process fails with an exception. *)
Definition start_fails (it : nat) (usecontainer : bool) (cmd : str) : handle + exn :=
  inr Exception.

(** A process that ends with [code] at time [t0]. *)
Definition exits_at (t0 : nat) (code : Z) (pid : Z) (t : nat) : option Z :=
  if t0 <=? t then Some code else None.

(** A process that does not end on its own. *)
Definition never_exits (pid : Z) (t : nat) : option Z := None.

(** Some names of the [signal] module of Python 2 on Linux. *)
Definition signal_names : Workflow.signal_module :=
  [("SIG_DFL" : str, 0%Z); ("SIG_IGN" : str, 1%Z); ("SIGHUP" : str, 1%Z);
   ("SIGINT" : str, 2%Z); ("SIGQUIT" : str, 3%Z); ("SIGKILL" : str, 9%Z);
   ("SIGTERM" : str, 15%Z); ("NSIG" : str, 65%Z)].

(** The flag when one SIGINT reaches the pilot at the instant [T]. *)
Definition interrupted_at (T : Q) : nat -> bool :=
  Workflow.is_set_at signal_names [(T, SIGINT)].
Arguments interrupted_at T%_Q _%_nat.

(** The flag when no signal reaches the pilot. *)
Definition never_interrupted : nat -> bool := Workflow.is_set_at signal_names [].

(** The world of the examples of cancellation: the payload 100 does not end
    on its own and a SIGINT reaches the pilot after 2.45 seconds. *)
Definition cancelled_world : world :=
  make_world (inl ("setup.sh; payload.exe" : str))
    with_payload_only (fun _ _ => 0%Z) starts_100
    never_exits (interrupted_at 24.5).

(** The same, with the SIGINT after 59.15 seconds: just after the last flag
    check of the first round of [wait_graceful]. *)
Definition late_cancelled_world : world :=
  make_world (inl ("setup.sh; payload.exe" : str))
    with_payload_only (fun _ _ => 0%Z) starts_100
    never_exits (interrupted_at 591.5).

(** The payload 100 ends with code 0 after 2 seconds; no signal reaches the
    pilot. *)
Definition undisturbed_world : world :=
  make_world (inl ("setup.sh; payload.exe" : str))
    with_payload_only (fun _ _ => 0%Z) starts_100
    (exits_at 20 0) never_interrupted.

(** An HPO job with commands before and after the payload.  The preprocess
    succeeds in the first round and reports that no points are left (160) in
    the second; the postprocess ends with code 7; each payload ends with
    code 0. *)
Definition hpo_results (it : nat) (label : str) : Z :=
  if decide (label = "preprocess")
  then (if it =? 1 then 0%Z else 160%Z)
  else 7%Z.

Definition hpo_world : world :=
  make_world (inl ("setup.sh; payload.exe" : str))
    pre_and_post hpo_results starts_100 (exits_at 20 0) never_interrupted.

Definition hpo_exec : Executor := executor_of (job0 true).

(** A job that comes with the error 1099 in its error list, recorded by
    another module: the [errors] object of the executor's module holds
    nothing. *)
Definition foreign_error_exec : Executor :=
  executor_of
    (set_pilot_errors ([ErrorCode 1099], [ErrorMessage (ErrorCode 1099)]) (job0 false)).

(** The same job when the error 1099 was recorded through the [errors]
    object of the executor's module, which holds it too. *)
Definition recorded_error_exec : Executor :=
  with_errors
    {| pilot_error_codes := [ErrorCode 1099];
       pilot_error_diags := [ErrorMessage (ErrorCode 1099)] |}
    foreign_error_exec.

(** The payload cannot be started. *)
Definition launch_failure_world : world :=
  make_world (inl ("setup.sh; payload.exe" : str))
    with_payload_only (fun _ _ => 0%Z) start_fails never_exits never_interrupted.

(** A job with two utilities in its table: a memory monitor running as the
    process 200, and a network monitor without a process object. *)
Definition memory_monitor : utility :=
  {| ut_proc := Popen 200; ut_launches := 1;
     ut_command := "MemoryMonitor --pid 100" |}.

Definition network_monitor : utility :=
  {| ut_proc := NoHandle; ut_launches := 1; ut_command := "NetworkMonitor" |}.

Definition monitored_exec : Executor :=
  executor_of
    (set_utilities
       (<[("MemoryMonitor" : str) := memory_monitor]>
          (<[("NetworkMonitor" : str) := network_monitor]> ∅))
       (job0 false)).

(** The command builder fails with a structured error (code 1305); there
    is no preprocess command; a process can be started and ends with
    code 0. *)
Definition unresolved_world : world :=
  make_world (inr (PilotException (ErrorCode 1305)))
    with_payload_only (fun _ _ => 0%Z) starts_100 (exits_at 20 0) never_interrupted.

(** No utility command is registered at any extension point. *)
Definition no_utilities (it : nat) (order : utility_order) : option cmd_dictionary :=
  None.

(** A job whose payload would end with code 0, with no utility command
    registered. *)
Definition plain_world : world :=
  make_world (inl ("setup.sh; payload.exe" : str))
    no_utilities (fun _ _ => 0%Z) starts_100 (exits_at 20 0) never_interrupted.

(** The preprocess command ends with code 3. *)
Definition failing_preprocess_world : world :=
  make_world (inl ("setup.sh; payload.exe" : str))
    pre_and_post (fun _ _ => 3%Z) starts_100 (exits_at 20 0) never_interrupted.

(** The world [w] with other answers of the operating system about
    process groups, and of [write_file]. *)
Definition with_os (getpgid : nat -> Z -> option Z) (killpg : nat -> Z -> Z -> bool)
    (writes : nat -> str -> bool) (w : world) : world :=
  {| user_get_payload_command := user_get_payload_command w;
     user_get_utility_commands := user_get_utility_commands w;
     user_get_utility_command_setup := user_get_utility_command_setup w;
     user_get_utility_command_kill_signal := user_get_utility_command_kill_signal w;
     user_post_utility_command_action := user_post_utility_command_action w;
     execute := execute w;
     execute_proc := execute_proc w;
     write_file := writes;
     os_path_exists := os_path_exists w;
     os_getpgid := getpgid;
     os_killpg := killpg;
     proc_poll := proc_poll w;
     graceful_stop_is_set := graceful_stop_is_set w |}.


(** The work directory cannot be written to. *)
Definition readonly_world : world :=
  with_os (fun _ pid => Some pid) (fun _ _ _ => true) (fun _ _ => false)
    failing_preprocess_world.






(** The world [w] with another hook called after stopping a utility. *)
Definition with_hook (hook : str -> JobData -> gmap str utility) (w : world) : world :=
  {| user_get_payload_command := user_get_payload_command w;
     user_get_utility_commands := user_get_utility_commands w;
     user_get_utility_command_setup := user_get_utility_command_setup w;
     user_get_utility_command_kill_signal := user_get_utility_command_kill_signal w;
     user_post_utility_command_action := hook;
     execute := execute w;
     execute_proc := execute_proc w;
     write_file := write_file w;
     os_path_exists := os_path_exists w;
     os_getpgid := os_getpgid w;
     os_killpg := os_killpg w;
     proc_poll := proc_poll w;
     graceful_stop_is_set := graceful_stop_is_set w |}.

(** The hook called after stopping a utility empties the utility table. *)
Definition forgetful_world : world := with_hook (fun _ _ => ∅) hpo_world.

(** A job with two running utilities in its table. *)
Definition cpu_monitor : utility :=
  {| ut_proc := Popen 201; ut_launches := 1; ut_command := "CpuMonitor --pid 100" |}.

Definition two_monitors_exec : Executor :=
  executor_of
    (set_utilities
       (<[("MemoryMonitor" : str) := memory_monitor]>
          (<[("CpuMonitor" : str) := cpu_monitor]> ∅))
       (job0 false)).

End Scenario.

(** ** Vocabulary for what a method leaves unchanged *)

(** [m] takes every object to one related to it by [R], however it ends. *)
Definition preserves {A} (R : Executor -> Executor -> Prop) (m : M A) : Prop :=
  forall s, R s (m s).2.

(** The error list has only been appended to. *)
Definition errors_extend (s s' : Executor) : Prop :=
  piloterrorcodes (job s) `prefix_of` piloterrorcodes (job s') /\
  piloterrordiags (job s) `prefix_of` piloterrordiags (job s').

(** The two error lists of the job, and the two lists that the [errors]
    object of the module holds. *)
Definition job_errors (s : Executor) : list errorcode * list errordiag :=
  (piloterrorcodes (job s), piloterrordiags (job s)).

Definition held (s : Executor) : list errorcode * list errordiag :=
  (pilot_error_codes (errors s), pilot_error_diags (errors s)).

(** The error lists of the job are the ones that the [errors] object holds. *)
Definition in_step (s : Executor) : Prop := job_errors s = held s.

(** What the [errors] object holds has only been appended to. *)
Definition held_extend (s s' : Executor) : Prop :=
  pilot_error_codes (errors s) `prefix_of` pilot_error_codes (errors s') /\
  pilot_error_diags (errors s) `prefix_of` pilot_error_diags (errors s').

(** Between [s] and [s'] errors were recorded in one way only, by assigning
    to the two lists of the job what a call of [errors.add_error_code]
    returned: either nothing was recorded, and the lists of the job and the
    [errors] object are as they were, or the lists of the job are those that
    the [errors] object now holds. *)
Definition errors_recorded (s s' : Executor) : Prop :=
  held_extend s s' /\
  ((job_errors s' = job_errors s /\ errors s' = errors s) \/
   job_errors s' = held s').

(** The [errors] object is as it was. *)
Definition keeps_held (s s' : Executor) : Prop := errors s' = errors s.

(** [m] records errors by assignment only; and when the lists of the job
    are those of the [errors] object before [m], they are so after it, and
    begin with what they held before. *)
Definition append_only {A} (m : M A) : Prop :=
  forall s,
    errors_recorded s (m s).2 /\
    (in_step s -> errors_extend s (m s).2 /\ in_step (m s).2).

(** The flag gets set at the instant [T] (any instant, in tenths of a
    second) and stays set: a check of the flag finds it set exactly when it
    is made at or after [T]. *)
Definition set_from (w : world) (T : Q) : Prop :=
  forall t : nat, graceful_stop_is_set w t = true <-> (T <= at_time t)%Q.

(** The payload command after [cmd = cmd.replace(jobparams_pre,
    jobparams_post)], done when the two differ. *)
Definition updated_command (cmd jobparams_pre jobparams_post : str) : str :=
  if decide (jobparams_pre = jobparams_post) then cmd
  else PyStr.replace cmd jobparams_pre jobparams_post.



(** The record of events has grown by events that satisfy [P]. *)
Definition emits (P : event -> Prop) (s s' : Executor) : Prop :=
  exists tr, trace s' = trace s ++ tr /\ Forall P tr.

(** The field [f] of the job is as it was. *)
Definition keeps {X} (f : JobData -> X) (s s' : Executor) : Prop :=
  f (job s') = f (job s).

Definition any_event (ev : event) : Prop := True.

Definition not_launch (ev : event) : Prop := ~ is_launch ev.

(** What [run] does before its loop; the value is the payload command. *)
Definition run_prologue (w : world) : M str :=
  pre_setup;;
  cmd ← get_payload_command w;
  modify_job (set_setup (extract_setup cmd));;
  post_setup;;
  ret cmd.

(** [rounds_on w cycles n (it, cmd, s) (it', cmd', s')]: the loop of [run],
    about to begin the round [it] with the command [cmd] on the object [s],
    goes round [n] times and is then about to begin the round [it'] with
    [cmd'] on [s']. *)
Inductive rounds_on (w : world) (cycles : nat)
  : nat -> nat * str * Executor -> nat * str * Executor -> Prop :=
| rounds_on_O x : rounds_on w cycles 0 x x
| rounds_on_S n it cmd s cmd' s' y :
    run_round w cycles it cmd s = (Return (Again cmd'), s') ->
    rounds_on w cycles n (S it, cmd', s') y ->
    rounds_on w cycles (S n) (it, cmd, s) y.

(** The round [it] of [run] called on [s0] begins with [cmd] on [s], after
    [n] earlier rounds. *)
Definition round_of_run (w : world) (cycles : nat) (s0 : Executor)
    (n it : nat) (cmd : str) (s : Executor) : Prop :=
  exists cmd0 s_setup,
    run_prologue w s0 = (Return cmd0, s_setup) /\
    rounds_on w cycles n (1, cmd0, s_setup) (it, cmd, s).

(** [s] with the events [tr] added. *)
Definition with_events (tr : list event) (s : Executor) : Executor :=
  {| job := job s;
     traces_pilot_error_code := traces_pilot_error_code s;
     errors := errors s;
     preprocess_stdout := preprocess_stdout s;
     preprocess_stderr := preprocess_stderr s;
     postprocess_stdout := postprocess_stdout s;
     postprocess_stderr := postprocess_stderr s;
     clock := clock s; trace := trace s ++ tr |}.

(** What comes of signalling the process group of the handle [h] with [sig]
    at time [t]: the signal is sent, or the failure (no process object, no
    such process, no such group) is logged as a warning. *)
Definition signal_attempt (w : world) (t : nat) (h : handle) (sig : Z) : event :=
  match h with
  | Popen pid =>
      match os_getpgid w t pid with
      | Some pgid => if os_killpg w t pgid sig then EvKillpg pgid sig else EvLog WARNING
      | None => EvLog WARNING
      end
  | _ => EvLog WARNING
  end.

(** What stopping the utilities [l] does, entry by entry: those with a
    process handle are signalled and then handed to the hook; the others are
    passed over. *)
Definition stop_events (w : world) (t : nat) (l : list (str * utility)) : list event :=
  flat_map
    (fun e =>
       if truthy (ut_proc e.2)
       then [signal_attempt w t (ut_proc e.2)
               (user_get_utility_command_kill_signal w e.1);
             EvPostAction e.1]
       else [])
    l.

Definition is_execute (ev : event) : Prop :=
  match ev with EvExecute _ _ => True | _ => False end.

(** The error code that [execute_utility_command] takes for a label. *)
Definition failure_code (label : str) : errorcode :=
  if decide (label = "preprocess") then PREPROCESSFAILURE
  else if decide (label = "postprocess") then POSTPROCESSFAILURE
  else UNKNOWNPAYLOADFAILURE.

(** The event that one [write_file] of [write_utility_output] leaves. *)
Definition write_event (w : world) (it : nat) (path : str) : event :=
  if write_file w it path then EvWriteFile path else EvLog WARNING.

(** The exit code that [run] carries on with after [wait_graceful]. *)
Definition normalized (exit_code : option Z) : Z :=
  match exit_code with Some c => c | None => (-1)%Z end.
(** ** Facts about the string operations *)

Module PyStrFacts.
Import PyStr.

Lemma blank_nil : blank [].
Proof. reflexivity. Qed.

Lemma blank_cons c s : blank (c :: s) <-> isspace c = true /\ blank s.
Proof. unfold blank. simpl. rewrite andb_true_iff. tauto. Qed.

Lemma lstrip_blank_app ws s : blank ws -> lstrip (ws ++ s) = lstrip s.
Proof.
  induction ws as [|c ws IH]; intros Hb; [reflexivity|].
  apply blank_cons in Hb as [Hc Hb]. simpl. rewrite Hc. auto.
Qed.

Lemma lstrip_length s : length (lstrip s) <= length s.
Proof.
  induction s as [|c s IH]; simpl; [lia|].
  destruct (isspace c); simpl; lia.
Qed.

Lemma lstrip_fixed_head c s : lstrip (c :: s) = c :: s -> isspace c = false.
Proof.
  simpl. destruct (isspace c); [|reflexivity].
  intros H. pose proof (lstrip_length s) as Hl. rewrite H in Hl. simpl in Hl. lia.
Qed.

Lemma lstrip_head_nonspace c s : isspace c = false -> lstrip (c :: s) = c :: s.
Proof. intros H. simpl. now rewrite H. Qed.

Lemma rstrip_blank ws : blank ws -> rstrip ws = [].
Proof.
  induction ws as [|c ws IH]; intros Hb; [reflexivity|].
  apply blank_cons in Hb as [Hc Hb]. simpl. rewrite (IH Hb), Hc. reflexivity.
Qed.

Lemma rstrip_blank_app s ws : blank ws -> rstrip (s ++ ws) = rstrip s.
Proof.
  intros Hb. induction s as [|c s IH]; simpl.
  - now apply rstrip_blank.
  - now rewrite IH.
Qed.

Lemma rstrip_length s : length (rstrip s) <= length s.
Proof.
  induction s as [|c s IH]; simpl; [lia|].
  destruct (rstrip s); [destruct (isspace c)|]; simpl in *; lia.
Qed.

Lemma rstrip_head c s : isspace c = false -> exists r, rstrip (c :: s) = c :: r.
Proof.
  intros H. simpl. destruct (rstrip s); [rewrite H|]; eauto.
Qed.

Lemma rstrip_idemp s : rstrip (rstrip s) = rstrip s.
Proof.
  induction s as [|c s IH]; [reflexivity|]. simpl.
  destruct (rstrip s) as [|d r] eqn:E.
  - destruct (isspace c) eqn:Hc; simpl; [reflexivity|now rewrite Hc].
  - simpl in *. now rewrite IH.
Qed.

Lemma lstrip_tail_nonspace s :
  match lstrip s with [] => True | c :: _ => isspace c = false end.
Proof.
  induction s as [|c s IH]; simpl; [exact I|].
  destruct (isspace c) eqn:Hc; [exact IH|exact Hc].
Qed.

Lemma strip_idemp s : strip (strip s) = strip s.
Proof.
  unfold strip. pose proof (lstrip_tail_nonspace s) as Hh.
  destruct (lstrip s) as [|c r]; [reflexivity|].
  destruct (rstrip_head c r Hh) as [r' Hr]. rewrite Hr.
  rewrite (lstrip_head_nonspace c r' Hh), <- Hr. apply rstrip_idemp.
Qed.

Lemma strip_fixed s : strip s = s -> lstrip s = s /\ rstrip s = s.
Proof.
  unfold strip. intros H.
  assert (Hl : lstrip s = s).
  { pose proof (rstrip_length (lstrip s)) as H1. rewrite H in H1.
    clear H. induction s as [|c s IH]; [reflexivity|].
    simpl in *. destruct (isspace c); [|reflexivity].
    pose proof (lstrip_length s). lia. }
  rewrite Hl in H. auto.
Qed.

Lemma strip_padded ws1 p ws2 :
  blank ws1 -> blank ws2 -> p <> [] -> strip p = p ->
  strip (ws1 ++ p ++ ws2) = p.
Proof.
  intros H1 H2 Hne Hp. apply strip_fixed in Hp as [Hl Hr].
  unfold strip. rewrite lstrip_blank_app by assumption.
  destruct p as [|c p]; [congruence|].
  pose proof (lstrip_fixed_head _ _ Hl) as Hc.
  change ((c :: p) ++ ws2) with (c :: (p ++ ws2)).
  rewrite lstrip_head_nonspace by assumption.
  change (c :: (p ++ ws2)) with ((c :: p) ++ ws2).
  rewrite rstrip_blank_app by assumption. exact Hr.
Qed.

Lemma elem_of_lstrip x s : In x (lstrip s) -> In x s.
Proof.
  induction s as [|c s IH]; simpl; [tauto|].
  destruct (isspace c); simpl; tauto.
Qed.

Lemma elem_of_rstrip x s : In x (rstrip s) -> In x s.
Proof.
  induction s as [|c s IH]; simpl; [tauto|].
  destruct (rstrip s); [destruct (isspace c)|]; simpl in *; tauto.
Qed.

Lemma elem_of_strip x s : In x (strip s) -> In x s.
Proof. unfold strip. intros H. now apply elem_of_lstrip, elem_of_rstrip. Qed.

(** *** [endswith] and [split] *)

Lemma endswith_snoc s c : endswith (s ++ [c]) c = true.
Proof.
  induction s as [|d s IH]; simpl.
  - now destruct (decide (c = c)).
  - destruct (s ++ [c]) eqn:E; [now destruct s|exact IH].
Qed.

Lemma endswith_snoc_inv s c : endswith s c = true -> exists a, s = a ++ [c].
Proof.
  induction s as [|d s IH]; [discriminate|]. intros He.
  destruct s as [|e s].
  - simpl in He. destruct (decide (d = c)); [subst; now exists []|discriminate].
  - destruct (IH He) as [a Ha]. exists (d :: a). simpl. now rewrite <- Ha.
Qed.

Lemma endswith_In s c : endswith s c = true -> In c s.
Proof.
  induction s as [|d s IH]; simpl; [discriminate|].
  destruct s as [|e s].
  - destruct (decide (d = c)); [auto|discriminate].
  - intros H. right. exact (IH H).
Qed.

Lemma endswith_app a b c : b <> [] -> endswith (a ++ b) c = endswith b c.
Proof.
  intros Hb. induction a as [|d a IH]; [reflexivity|].
  simpl. destruct (a ++ b) eqn:E; [|exact IH].
  destruct a, b; simpl in E; congruence.
Qed.

Lemma split_nonempty sep s : split sep s <> [].
Proof.
  destruct s as [|c s]; simpl; [discriminate|].
  destruct (decide (c = sep)); [discriminate|].
  destruct (split sep s); discriminate.
Qed.

Lemma split_no_sep sep s : ~ In sep s -> split sep s = [s].
Proof.
  induction s as [|c s IH]; intros Hn; [reflexivity|].
  simpl in *. destruct (decide (c = sep)); [tauto|].
  rewrite IH by tauto. reflexivity.
Qed.

Lemma split_app_sep sep a x :
  split sep (a ++ sep :: x) = split sep a ++ split sep x.
Proof.
  induction a as [|c a IH]; simpl.
  - now destruct (decide (sep = sep)).
  - destruct (decide (c = sep)); rewrite IH; [reflexivity|].
    pose proof (split_nonempty sep a).
    destruct (split sep a); [congruence|reflexivity].
Qed.

Lemma last_app_nonempty {A} (l l' : list A) d :
  l' <> [] -> List.last (l ++ l') d = List.last l' d.
Proof.
  intros Hl. induction l as [|x l IH]; [reflexivity|].
  simpl. destruct (l ++ l') eqn:E; [|exact IH].
  destruct l, l'; simpl in E; congruence.
Qed.

Lemma last_split_prefix sep pre x :
  pre = [] \/ endswith pre sep = true -> ~ In sep x ->
  List.last (split sep (pre ++ x)) [] = x.
Proof.
  intros Hpre Hx. destruct Hpre as [->|He].
  - simpl. now rewrite split_no_sep.
  - apply endswith_snoc_inv in He as [a ->].
    rewrite <- app_assoc. simpl. rewrite split_app_sep.
    rewrite last_app_nonempty by apply split_nonempty.
    now rewrite split_no_sep.
Qed.

(** *** [startswith] and [replace] *)

Lemma startswith_app p v : startswith (p ++ v) p = true.
Proof.
  induction p as [|c p IH]; [now destruct v|].
  simpl. now destruct (decide (c = c)).
Qed.

Lemma startswith_true s p : startswith s p = true -> exists v, s = p ++ v.
Proof.
  revert s. induction p as [|c p IH]; intros s H.
  - now exists s.
  - destruct s as [|d s]; [discriminate|]. simpl in H.
    destruct (decide (c = d)); [subst|discriminate].
    destruct (IH _ H) as [v ->]. now exists v.
Qed.

Lemma startswith_sep sep a b p :
  ~ In sep p -> startswith (a ++ sep :: b) p = startswith a p.
Proof.
  revert a. induction p as [|c p IH]; intros a Hn.
  - now destruct a.
  - simpl in Hn. destruct a as [|d a]; simpl.
    + destruct (decide (c = sep)); [tauto|reflexivity].
    + destruct (decide (c = d)); [apply IH; tauto|reflexivity].
Qed.

Lemma replace_scan_skip old new k s :
  replace_scan old new k s = replace_scan old new 0 (drop k s).
Proof.
  revert k. induction s as [|c s IH]; intros k.
  - now destruct k.
  - destruct k; [reflexivity|]. simpl. apply IH.
Qed.

Lemma replace_scan_hit old new v :
  old <> [] -> replace_scan old new 0 (old ++ v) = new ++ replace_scan old new 0 v.
Proof.
  intros Hne. destruct old as [|c old]; [congruence|].
  change ((c :: old) ++ v) with (c :: (old ++ v)).
  cbn [replace_scan].
  change (c :: (old ++ v)) with ((c :: old) ++ v).
  rewrite startswith_app. f_equal.
  rewrite replace_scan_skip. simpl. rewrite Nat.sub_0_r.
  now rewrite drop_app_length.
Qed.

Lemma replace_scan_miss old new c s :
  startswith (c :: s) old = false ->
  replace_scan old new 0 (c :: s) = c :: replace_scan old new 0 s.
Proof. intros H. cbn [replace_scan]. now rewrite H. Qed.

Lemma startswith_head_ne c old d s :
  c <> d -> startswith (d :: s) (c :: old) = false.
Proof. intros Hne. simpl. destruct (decide (c = d)); [tauto|reflexivity]. Qed.

Lemma replace_scan_blank_prefix c old new ws s :
  isspace c = false -> blank ws ->
  replace_scan (c :: old) new 0 (ws ++ s) = ws ++ replace_scan (c :: old) new 0 s.
Proof.
  intros Hc. induction ws as [|w ws IH]; intros Hb; [reflexivity|].
  apply blank_cons in Hb as [Hw Hb].
  change ((w :: ws) ++ s) with (w :: (ws ++ s)).
  rewrite replace_scan_miss, IH; [reflexivity|assumption|].
  apply startswith_head_ne. congruence.
Qed.

Lemma replace_scan_sep sep old new a b k :
  old <> [] -> ~ In sep old -> k <= length a ->
  replace_scan old new k (a ++ sep :: b)
  = replace_scan old new k a ++ sep :: replace_scan old new 0 b.
Proof.
  intros Hne Hsep. revert k. induction a as [|c a IH]; intros k Hk.
  - simpl in Hk. assert (k = 0) as -> by lia.
    destruct old as [|d old]; [congruence|].
    change ([] ++ sep :: b) with (sep :: b).
    rewrite replace_scan_miss; [reflexivity|].
    apply startswith_head_ne. simpl in Hsep. tauto.
  - destruct k as [|k].
    + change ((c :: a) ++ sep :: b) with (c :: (a ++ sep :: b)).
      cbn [replace_scan].
      change (c :: (a ++ sep :: b)) with ((c :: a) ++ sep :: b).
      rewrite startswith_sep by assumption.
      destruct (startswith (c :: a) old) eqn:E.
      * apply startswith_true in E as [v E].
        assert (length old - 1 <= length a).
        { apply (f_equal (@length ascii)) in E.
          rewrite length_app in E. simpl in E. lia. }
        rewrite IH by assumption. now rewrite app_assoc.
      * rewrite IH by (simpl; lia). reflexivity.
    + simpl. apply IH. simpl in Hk. lia.
Qed.

Lemma occurs_in_cons p c s :
  occurs_in p (c :: s) -> startswith (c :: s) p = true \/ occurs_in p s.
Proof.
  intros (u & v & E). destruct u as [|d u].
  - left. simpl in E. rewrite E. apply startswith_app.
  - right. simpl in E. injection E as _ E. now exists u, v.
Qed.

Lemma replace_scan_absent old new s :
  ~ occurs_in old s -> replace_scan old new 0 s = s.
Proof.
  induction s as [|c s IH]; intros Hn; [reflexivity|].
  destruct (startswith (c :: s) old) eqn:E.
  - exfalso. apply Hn. apply startswith_true in E as [v E].
    exists [], v. exact E.
  - rewrite replace_scan_miss by assumption. f_equal. apply IH.
    intros (u & v & E'). apply Hn. exists (c :: u), v. simpl. now rewrite E'.
Qed.

Lemma replace_scan_length_le old k s :
  length (replace_scan old [] k s) <= length s - k.
Proof.
  revert k. induction s as [|c s IH]; intros k; [simpl; lia|].
  destruct k as [|k]; cbn [replace_scan].
  - destruct (startswith (c :: s) old).
    + simpl. specialize (IH (length old - 1)). lia.
    + simpl. specialize (IH 0). lia.
  - simpl. apply IH.
Qed.

Lemma replace_scan_shrinks old s :
  old <> [] -> occurs_in old s ->
  length (replace_scan old [] 0 s) + length old <= length s.
Proof.
  intros Hne. induction s as [|c s IH]; intros Ho.
  - destruct Ho as (u & v & E). destruct u, old; simpl in E; congruence.
  - destruct (startswith (c :: s) old) eqn:E.
    + cbn [replace_scan]. rewrite E. simpl.
      apply startswith_true in E as [v E].
      apply (f_equal (@length ascii)) in E. rewrite length_app in E. simpl in E.
      pose proof (replace_scan_length_le old (length old - 1) s).
      destruct old; [congruence|]. simpl in *. lia.
    + rewrite replace_scan_miss by assumption.
      destruct (occurs_in_cons _ _ _ Ho) as [H|H]; [congruence|].
      specialize (IH H). simpl. lia.
Qed.

Lemma replace_self s : replace s s [] = [].
Proof.
  destruct s as [|c s]; [reflexivity|].
  unfold replace. rewrite <- (app_nil_r (c :: s)) at 2.
  rewrite replace_scan_hit by discriminate. reflexivity.
Qed.

Lemma contains_occurs s p : contains s p = true <-> occurs_in p s.
Proof.
  split.
  - induction s as [|c s IH]; cbn [contains].
    + rewrite orb_false_r. intros H. apply startswith_true in H as [v H].
      now exists [], v.
    + intros H. apply orb_true_iff in H as [H|H].
      * apply startswith_true in H as [v H]. now exists [], v.
      * destruct (IH H) as (u & v & E). exists (c :: u), v. simpl. now rewrite E.
  - intros (u & v & ->). induction u as [|c u IH].
    + change ([] ++ p ++ v) with (p ++ v).
      destruct (p ++ v) eqn:E; cbn [contains]; rewrite <- E, startswith_app;
        reflexivity.
    + change ((c :: u) ++ p ++ v) with (c :: (u ++ p ++ v)).
      cbn [contains]. rewrite IH. apply orb_true_r.
Qed.

Lemma contains_false s p : contains s p = false -> ~ occurs_in p s.
Proof. intros H Ho. apply contains_occurs in Ho. congruence. Qed.

Lemma blank_not_semicolon ws : blank ws -> ~ In ";"%char ws.
Proof.
  intros Hb Hin. unfold blank in Hb. rewrite forallb_forall in Hb.
  specialize (Hb _ Hin). discriminate.
Qed.

Lemma replace_app_sep sep old new a b :
  old <> [] -> ~ In sep old ->
  replace (a ++ sep :: b) old new = replace a old new ++ sep :: replace b old new.
Proof.
  intros Hne Hsep. unfold replace. destruct old; [congruence|].
  apply replace_scan_sep; [discriminate|assumption|lia].
Qed.

Lemma replace_padded ws1 p ws2 :
  blank ws1 -> blank ws2 -> p <> [] -> strip p = p ->
  replace (ws1 ++ p ++ ws2) p [] = ws1 ++ ws2.
Proof.
  intros H1 H2 Hne Hp. destruct p as [|c q]; [congruence|].
  apply strip_fixed in Hp as [Hl _]. apply lstrip_fixed_head in Hl.
  unfold replace. rewrite replace_scan_blank_prefix by assumption.
  rewrite replace_scan_hit by discriminate. simpl.
  rewrite <- (app_nil_r ws2) at 1.
  rewrite replace_scan_blank_prefix by assumption.
  now rewrite app_nil_r.
Qed.

Lemma replace_nil old new : old <> [] -> replace [] old new = [].
Proof. destruct old; [congruence|reflexivity]. Qed.

Lemma replace_absent s old new :
  old <> [] -> contains s old = false -> replace s old new = s.
Proof.
  intros Hne Hc. unfold replace. destruct old; [congruence|].
  apply replace_scan_absent. now apply contains_false.
Qed.

Lemma replace_shrinks s old :
  old <> [] -> contains s old = true ->
  length (replace s old []) + length old <= length s.
Proof.
  intros Hne Hc. unfold replace. destruct old eqn:E; [congruence|].
  rewrite <- E in *. apply replace_scan_shrinks; [assumption|].
  now apply contains_occurs.
Qed.

End PyStrFacts.

(** ** Sequencing and the record of events *)

Lemma bind_return {A B} (m : M A) (k : A -> M B) s a s' :
  m s = (Return a, s') -> (m ≫= k) s = k a s'.
Proof. intros H. unfold mbind, M_bind, bind. now rewrite H. Qed.

Lemma bind_raise {A B} (m : M A) (k : A -> M B) s e s' :
  m s = (Raise e, s') -> (m ≫= k) s = (Raise e, s').
Proof. intros H. unfold mbind, M_bind, bind. now rewrite H. Qed.

Lemma bind_running {A B} (m : M A) (k : A -> M B) s s' :
  m s = (Running, s') -> (m ≫= k) s = (Running, s').
Proof. intros H. unfold mbind, M_bind, bind. now rewrite H. Qed.

Lemma advanced_nil s : advanced [] 0 s = s.
Proof. destruct s. unfold advanced. simpl. f_equal; [lia|apply app_nil_r]. Qed.

Lemma advanced_advanced tr1 d1 tr2 d2 s :
  advanced tr2 d2 (advanced tr1 d1 s) = advanced (tr1 ++ tr2) (d1 + d2) s.
Proof. unfold advanced. simpl. f_equal; [lia|now rewrite app_assoc]. Qed.

Lemma with_event_advanced ev s : with_event ev s = advanced [ev] 0 s.
Proof. unfold advanced, with_event. f_equal. lia. Qed.

Lemma with_elapsed_advanced dt s : with_elapsed dt s = advanced [] dt s.
Proof. unfold advanced, with_elapsed. f_equal. now rewrite app_nil_r. Qed.

Lemma emit_advanced ev s : emit ev s = (Return tt, advanced [ev] 0 s).
Proof. unfold emit, modify. now rewrite with_event_advanced. Qed.

Lemma sleep_advanced d s : sleep d s = (Return tt, advanced [EvSleep d] d s).
Proof.
  unfold sleep. rewrite (bind_return _ _ _ _ _ (emit_advanced _ _)).
  unfold modify. now rewrite with_elapsed_advanced, advanced_advanced.
Qed.

Lemma slept_app tr1 tr2 : slept (tr1 ++ tr2) = slept tr1 + slept tr2.
Proof.
  induction tr1 as [|ev tr1 IH]; [reflexivity|].
  simpl. rewrite IH. destruct ev; lia.
Qed.

Lemma slept_repeat d n : slept (repeat (EvSleep d) n) = n * d.
Proof. induction n as [|n IH]; simpl; [reflexivity|]. rewrite IH. lia. Qed.

Lemma Forall_is_sleep_repeat d n : Forall is_sleep (repeat (EvSleep d) n).
Proof. induction n; simpl; constructor; simpl; auto. Qed.

Lemma slept_quiet_cycle : slept quiet_cycle = 601.
Proof. reflexivity. Qed.

(** ** [wait_graceful] *)

Section WaitGraceful.

Context (w : world) (pid : Z).

(** Checks of the flag that all find it clear. *)
Lemma flag_checks_quiet n s :
  (forall i, i < n -> graceful_stop_is_set w (clock s + 10 * i) = false) ->
  flag_checks w n pid s
  = (Return false, advanced (repeat (EvSleep 10) n) (10 * n) s).
Proof.
  revert s. induction n as [|n IH]; intros s Hq.
  - simpl. now rewrite advanced_nil.
  - cbn [flag_checks]. unfold mbind, M_bind, bind, now.
    pose proof (Hq 0 ltac:(lia)) as H0.
    rewrite Nat.mul_0_r, Nat.add_0_r in H0. rewrite H0.
    change (match sleep 10 s with
            | (Return a, s') => (fun _ : () => flag_checks w n pid) a s'
            | (Raise e, s') => (Raise e, s')
            | (Running, s') => (Running, s')
            end
            = (Return false, advanced (repeat (EvSleep 10) (S n)) (10 * S n) s)).
    rewrite sleep_advanced. simpl. rewrite IH.
    + rewrite advanced_advanced. do 2 f_equal. lia.
    + intros i Hi. simpl. specialize (Hq (S i) ltac:(lia)).
      rewrite <- Hq. f_equal. lia.
Qed.

(** Checks of the flag of which the one numbered [n0] is the first to find
    it set. *)
Lemma flag_checks_hit n n0 pgid s :
  n0 < n ->
  (forall i, i < n0 -> graceful_stop_is_set w (clock s + 10 * i) = false) ->
  graceful_stop_is_set w (clock s + 10 * n0) = true ->
  os_getpgid w (clock s + 10 * n0) pid = Some pgid ->
  os_killpg w (clock s + 10 * n0) pgid SIGTERM = true ->
  flag_checks w n pid s
  = (Return true,
     advanced (repeat (EvSleep 10) n0 ++ [EvKillpg pgid SIGTERM]) (10 * n0) s).
Proof.
  revert n s. induction n0 as [|n0 IH]; intros n s Hn Hq Hset Hpg Hkill.
  - destruct n as [|n]; [lia|].
    rewrite Nat.mul_0_r, Nat.add_0_r in *.
    cbn [flag_checks]. unfold mbind, M_bind, bind, now. rewrite Hset.
    unfold getpgid, killpg, mbind, M_bind, bind, now. rewrite Hpg. simpl.
    rewrite Hkill. now rewrite emit_advanced.
  - destruct n as [|n]; [lia|].
    cbn [flag_checks]. unfold mbind, M_bind, bind, now.
    pose proof (Hq 0 ltac:(lia)) as H0.
    rewrite Nat.mul_0_r, Nat.add_0_r in H0. rewrite H0.
    change (match sleep 10 s with
            | (Return a, s') => (fun _ : () => flag_checks w n pid) a s'
            | (Raise e, s') => (Raise e, s')
            | (Running, s') => (Running, s')
            end
            = (Return true,
               advanced (repeat (EvSleep 10) (S n0) ++ [EvKillpg pgid SIGTERM])
                        (10 * S n0) s)).
    rewrite sleep_advanced. simpl.
    rewrite (IH n (advanced [EvSleep 10] 10 s)); simpl.
    + rewrite advanced_advanced. do 2 f_equal. lia.
    + lia.
    + intros i Hi. specialize (Hq (S i) ltac:(lia)). rewrite <- Hq. f_equal. lia.
    + rewrite <- Hset. f_equal. lia.
    + rewrite <- Hpg. f_equal. lia.
    + rewrite <- Hkill. f_equal. lia.
Qed.

(** One round of the loop in which the flag stays clear: the process is
    polled at the end of the round. *)
Lemma wait_graceful_loop_quiet cycles exit_code s :
  (forall i, i < 60 -> graceful_stop_is_set w (clock s + 1 + 10 * i) = false) ->
  wait_graceful_loop w (S cycles) pid exit_code s
  = match proc_poll w pid (clock s + 601) with
    | Some c => (Return (Some c), advanced quiet_cycle 601 s)
    | None => wait_graceful_loop w cycles pid None (advanced quiet_cycle 601 s)
    end.
Proof.
  intros Hq. cbn [wait_graceful_loop].
  rewrite (bind_return _ _ _ _ _ (sleep_advanced 1 s)).
  rewrite (bind_return _ _ _ _ _
             (flag_checks_quiet 60 (advanced [EvSleep 1] 1 s) Hq)).
  rewrite advanced_advanced.
  unfold mbind, M_bind, bind, now.
  change (clock (advanced ([EvSleep 1] ++ repeat (EvSleep 10) 60) (1 + 10 * 60) s))
    with (clock s + 601).
  change (advanced ([EvSleep 1] ++ repeat (EvSleep 10) 60) (1 + 10 * 60) s)
    with (advanced quiet_cycle 601 s).
  destruct (proc_poll w pid (clock s + 601)); reflexivity.
Qed.

(** The round in which the flag is found set at the check numbered [n0]. *)
Lemma wait_graceful_loop_break cycles exit_code n0 pgid s :
  n0 < 60 ->
  (forall i, i < n0 -> graceful_stop_is_set w (clock s + 1 + 10 * i) = false) ->
  graceful_stop_is_set w (clock s + 1 + 10 * n0) = true ->
  os_getpgid w (clock s + 1 + 10 * n0) pid = Some pgid ->
  os_killpg w (clock s + 1 + 10 * n0) pgid SIGTERM = true ->
  wait_graceful_loop w (S cycles) pid exit_code s
  = (Return exit_code,
     advanced (EvSleep 1 :: repeat (EvSleep 10) n0
                 ++ [EvKillpg pgid SIGTERM; EvSleep 30; EvKill pid])
              (1 + 10 * n0 + 30) s).
Proof.
  intros Hn Hq Hset Hpg Hkill. cbn [wait_graceful_loop].
  rewrite (bind_return _ _ _ _ _ (sleep_advanced 1 s)).
  rewrite (bind_return _ _ _ _ _
             (flag_checks_hit 60 n0 pgid (advanced [EvSleep 1] 1 s)
                Hn Hq Hset Hpg Hkill)).
  rewrite advanced_advanced.
  rewrite (bind_return _ _ _ _ _ (sleep_advanced 30 _)).
  rewrite advanced_advanced.
  rewrite (bind_return _ _ _ _ _ (emit_advanced _ _)).
  rewrite advanced_advanced. unfold mret, M_ret, ret. do 2 f_equal.
  - simpl. rewrite <- !app_assoc. reflexivity.
  - lia.
Qed.

(** The process ends on its own and the flag is clear until the poll that
    sees it: that poll is the one closing round [k] (counted from 0). *)
Lemma wait_graceful_loop_natural k c :
  forall cycles exit_code s,
    k < cycles ->
    (forall t, t <= clock s + 601 * S k -> graceful_stop_is_set w t = false) ->
    (forall j, j < k -> proc_poll w pid (clock s + 601 * S j) = None) ->
    proc_poll w pid (clock s + 601 * S k) = Some c ->
    wait_graceful_loop w cycles pid exit_code s
    = (Return (Some c), advanced (concat (repeat quiet_cycle (S k))) (601 * S k) s).
Proof.
  induction k as [|k IH]; intros cycles exit_code s Hc Hflag Hnone Hsome.
  - destruct cycles as [|cycles]; [lia|].
    rewrite wait_graceful_loop_quiet by (intros; apply Hflag; lia).
    replace (clock s + 601 * 1) with (clock s + 601) in Hsome by lia.
    rewrite Hsome. cbn [repeat concat]. now rewrite app_nil_r.
  - destruct cycles as [|cycles]; [lia|].
    rewrite wait_graceful_loop_quiet by (intros; apply Hflag; lia).
    pose proof (Hnone 0 ltac:(lia)) as H0.
    replace (clock s + 601 * 1) with (clock s + 601) in H0 by lia.
    rewrite H0.
    rewrite (IH cycles None (advanced quiet_cycle 601 s)).
    + rewrite advanced_advanced. do 2 f_equal. lia.
    + lia.
    + intros t Ht. apply Hflag. simpl in Ht. lia.
    + intros j Hj. specialize (Hnone (S j) ltac:(lia)).
      rewrite <- Hnone. f_equal. simpl. lia.
    + rewrite <- Hsome. f_equal. simpl. lia.
Qed.

(** The first check of a round made at or after the time [T]. *)
Lemma first_check t0 T :
  T <= t0 + 591 ->
  exists n0, n0 < 60 /\ T <= t0 + 1 + 10 * n0 /\
             (forall i, i < n0 -> t0 + 1 + 10 * i < T) /\
             t0 + 1 + 10 * n0 <= Nat.max (t0 + 1) (T + 9).
Proof.
  intros HT. exists ((T - t0 - 1 + 9) / 10).
  pose proof (Nat.div_mod_eq (T - t0 - 1 + 9) 10) as Hd.
  pose proof (Nat.mod_upper_bound (T - t0 - 1 + 9) 10 ltac:(lia)) as Hm.
  repeat split; try lia.
Qed.

(** The flag is found set from the time [T] of the clock on; the process is
    still running.  The flag is seen at the first check at or after [T]: the
    first check of all when [T] has passed then, and otherwise at most 1.1
    seconds after the last time at which it was clear (a second between two
    checks of a round, and another tenth across the poll between two rounds);
    the group gets SIGTERM, and three seconds later the process is
    killed. *)
Lemma wait_graceful_loop_cancelled T pgid clock0 :
  (forall t, graceful_stop_is_set w t = true <-> T <= t) ->
  (forall t, clock0 + 601 <= t -> t <= T + 10 -> proc_poll w pid t = None) ->
  (forall t, os_getpgid w t pid = Some pgid) ->
  (forall t, os_killpg w t pgid SIGTERM = true) ->
  forall cycles s,
    clock0 <= clock s ->
    0 < cycles ->
    T + 10 <= clock s + 601 * cycles ->
    exists tc pre,
      T <= tc /\ clock s < tc /\ tc <= Nat.max (clock s + 1) (T + 10) /\
      (T <= clock s + 1 -> tc = clock s + 1) /\
      Forall is_sleep pre /\ slept pre = tc - clock s /\
      wait_graceful_loop w cycles pid None s
      = (Return None,
         advanced (pre ++ [EvKillpg pgid SIGTERM; EvSleep 30; EvKill pid])
                  (tc - clock s + 30) s).
Proof.
  intros Hflag Hpoll Hpg Hkill.
  assert (Hclear : forall t, t < T -> graceful_stop_is_set w t = false).
  { intros t Ht. destruct (graceful_stop_is_set w t) eqn:E; [|reflexivity].
    apply Hflag in E. lia. }
  induction cycles as [|cycles IH]; intros s Hc0 Hpos Hfuel; [lia|].
  clear Hpos.
  - destruct (le_lt_dec T (clock s + 591)) as [Hin|Hout].
    + destruct (first_check (clock s) T Hin) as (n0 & Hn0 & Hge & Hlt & Hle).
      exists (clock s + 1 + 10 * n0), (EvSleep 1 :: repeat (EvSleep 10) n0).
      split; [lia|]. split; [lia|]. split; [lia|]. split; [|split; [|split]].
      * intros HT. destruct n0 as [|n0]; [lia|].
        specialize (Hlt 0 ltac:(lia)). lia.
      * constructor; [exact I|apply Forall_is_sleep_repeat].
      * simpl. rewrite slept_repeat. lia.
      * rewrite (wait_graceful_loop_break cycles None n0 pgid s); auto.
        -- do 2 f_equal. lia.
        -- apply Hflag. lia.
    + rewrite wait_graceful_loop_quiet by (intros; apply Hclear; lia).
      rewrite Hpoll by lia.
      destruct (IH (advanced quiet_cycle 601 s))
        as (tc & pre & H1 & H2 & H3 & _ & H4 & H5 & H6).
      { simpl. lia. }
      { lia. }
      { simpl. lia. }
      simpl in H2, H3, H5. exists tc, (quiet_cycle ++ pre).
      split; [lia|]. split; [lia|]. split; [lia|]. split; [|split; [|split]].
      * intros HT. lia.
      * apply Forall_app. split; [|assumption].
        constructor; [exact I|apply Forall_is_sleep_repeat].
      * rewrite slept_app, slept_quiet_cycle. lia.
      * rewrite H6, advanced_advanced, app_assoc. do 2 f_equal.
        simpl. lia.
Qed.

End WaitGraceful.
(** ** Instants and times of the clock *)

Lemma at_time_le t t' : (at_time t <= at_time t')%Q <-> t <= t'.
Proof. unfold at_time. rewrite <- Zle_Qle. lia. Qed.

Lemma at_time_lt t t' : (at_time t < at_time t')%Q <-> t < t'.
Proof. unfold at_time. rewrite <- Zlt_Qlt. lia. Qed.

Lemma at_time_add t d : (at_time (t + d) == at_time t + at_time d)%Q.
Proof. unfold at_time. now rewrite Nat2Z.inj_add, inject_Z_plus. Qed.

Lemma first_time_spec T t : (T <= at_time t)%Q <-> first_time T <= t.
Proof.
  unfold first_time, at_time. split.
  - intros H. apply Qceiling_resp_le in H. rewrite Qceiling_Z in H. lia.
  - intros H. eapply Qle_trans; [apply Qle_ceiling|].
    rewrite <- Zle_Qle. lia.
Qed.

(** Comparing a time of the clock with an instant comes down to comparing
    it with the first time of the clock at or after the instant. *)
Lemma lt_ceiling (m : Z) T : (inject_Z m < T)%Q <-> (m < Qceiling T)%Z.
Proof.
  split.
  - intros H. apply Qlt_le_trans with (z := inject_Z (Qceiling T)) in H;
      [|apply Qle_ceiling].
    now rewrite <- Zlt_Qlt in H.
  - intros H. apply Qle_lt_trans with (y := inject_Z (Qceiling T - 1)).
    + rewrite <- Zle_Qle. lia.
    + apply Qceiling_lt.
Qed.

Lemma le_ceiling (m : Z) T : (T <= inject_Z m)%Q <-> (Qceiling T <= m)%Z.
Proof.
  split.
  - intros H. apply Qceiling_resp_le in H. now rewrite Qceiling_Z in H.
  - intros H. eapply Qle_trans; [apply Qle_ceiling|]. now rewrite <- Zle_Qle.
Qed.

Lemma instant_lt t (k : Z) T :
  (at_time t < T + inject_Z k)%Q <-> (Z.of_nat t - k < Qceiling T)%Z.
Proof.
  rewrite <- lt_ceiling. unfold at_time.
  rewrite <- (Qplus_lt_l (inject_Z (Z.of_nat t - k)) T (inject_Z k)).
  rewrite <- inject_Z_plus.
  now replace (Z.of_nat t - k + k)%Z with (Z.of_nat t) by lia.
Qed.

Lemma instant_le t (k : Z) T :
  (T + inject_Z k <= at_time t)%Q <-> (Qceiling T + k <= Z.of_nat t)%Z.
Proof.
  assert (E : (Qceiling T + k <= Z.of_nat t)%Z <-> (Qceiling T <= Z.of_nat t - k)%Z)
    by lia.
  rewrite E, <- le_ceiling. unfold at_time.
  rewrite <- (Qplus_le_l T (inject_Z (Z.of_nat t - k)) (inject_Z k)).
  rewrite <- inject_Z_plus.
  now replace (Z.of_nat t - k + k)%Z with (Z.of_nat t) by lia.
Qed.

(** ** The cancellation flag *)

Module WorkflowFacts.
Import Workflow.

(** The handler is installed for the number that the [signal] module gives
    to the name [SIGINT], so the name lookup of the handler finds a name for
    the signal that it is installed for. *)
Lemma names_of_SIGINT sm n : signal_SIGINT sm = Some n -> names_of sm n <> [].
Proof.
  unfold signal_SIGINT, names_of.
  destruct (List.find _ sm) as [vk|] eqn:E; [|discriminate].
  intros [= <-]. apply find_some in E as [Hin _].
  assert (In vk (List.filter (fun vk0 => (snd vk0 =? snd vk)%Z) sm)) as H.
  { apply filter_In. split; [exact Hin|apply Z.eqb_refl]. }
  destruct (List.filter _ sm); [destruct H|discriminate].
Qed.

Lemma interrupt_installed sm n args :
  signal_SIGINT sm = Some n ->
  interrupt sm n args = (Return tt, {| graceful_stop := {| flag := true |} |}).
Proof.
  intros H. apply names_of_SIGINT in H. unfold interrupt.
  now destruct (names_of sm n).
Qed.

(** Whatever the signal, the handler leaves the arguments object as it
    was (when it raises) or with the flag set. *)
Lemma interrupt_cases sm signum args :
  (interrupt sm signum args = (Raise IndexError, args) /\ names_of sm signum = []) \/
  interrupt sm signum args = (Return tt, {| graceful_stop := {| flag := true |} |}).
Proof. unfold interrupt. destruct (names_of sm signum); auto. Qed.

Lemma interrupt_keeps_set sm signum args :
  Event_is_set (graceful_stop args) = true ->
  snd (interrupt sm signum args) = args.
Proof.
  intros H. destruct (interrupt_cases sm signum args) as [[-> _]| ->]; [reflexivity|].
  destruct args as [[f]]. simpl in *. now subst f.
Qed.

Lemma fresh_only_interrupt sm : only_interrupt sm fresh.
Proof. intros signum handler H. simpl in H. now rewrite lookup_empty in H. Qed.

Lemma started_only_interrupt sm : only_interrupt sm (started sm).
Proof.
  unfold started, install_handler.
  destruct (signal_SIGINT sm) as [n|] eqn:E; [|apply fresh_only_interrupt].
  intros signum handler H. simpl in H.
  apply lookup_insert_Some in H as [[<- <-]|[_ H]]; [auto|].
  now rewrite lookup_empty in H.
Qed.

Lemma started_handler sm n :
  signal_SIGINT sm = Some n -> handlers (started sm) !! n = Some (interrupt sm).
Proof.
  intros E. unfold started, install_handler. rewrite E. simpl.
  apply lookup_insert_eq.
Qed.

Lemma step_handlers p a : handlers (step p a) = handlers p.
Proof.
  destruct a as [signum|st|]; simpl; [|reflexivity..].
  now destruct (handlers p !! signum).
Qed.

Lemma steps_handlers p l : handlers (steps p l) = handlers p.
Proof.
  revert p. unfold steps. induction l as [|a l IH]; intros p; [reflexivity|].
  simpl. now rewrite IH, step_handlers.
Qed.

Lemma steps_snoc p l a : steps p (l ++ [a]) = step (steps p l) a.
Proof. unfold steps. now rewrite fold_left_app. Qed.

Lemma steps_app p l l' : steps p (l ++ l') = steps (steps p l) l'.
Proof. unfold steps. now rewrite fold_left_app. Qed.

Lemma only_interrupt_steps sm p l : only_interrupt sm p -> only_interrupt sm (steps p l).
Proof. intros Hp signum handler. rewrite steps_handlers. apply Hp. Qed.

(** A step changes the flag only by running the handler on the signal it is
    installed for, and the handler sets the flag. *)
Lemma step_writes sm p a :
  only_interrupt sm p ->
  is_set (step p a) <> is_set p ->
  exists n, a = Signal n /\ signal_SIGINT sm = Some n /\ is_set (step p a) = true.
Proof.
  intros Hp Hne. destruct a as [signum|st|]; [|now elim Hne..].
  simpl in *. destruct (handlers p !! signum) as [handler|] eqn:E; [|now elim Hne].
  destruct (Hp _ _ E) as [-> Hn]. exists signum.
  split; [reflexivity|]. split; [exact Hn|].
  unfold is_set. simpl. now rewrite (interrupt_installed _ _ _ Hn).
Qed.

Lemma step_keeps_set sm p a :
  only_interrupt sm p -> is_set p = true -> is_set (step p a) = true.
Proof.
  intros Hp Hs. destruct (bool_decide (is_set (step p a) = is_set p)) eqn:E.
  - apply bool_decide_eq_true in E. congruence.
  - apply bool_decide_eq_false in E.
    now destruct (step_writes sm p a Hp E) as (_ & _ & _ & H).
Qed.

Lemma steps_keep_set sm p l :
  only_interrupt sm p -> is_set p = true -> is_set (steps p l) = true.
Proof.
  intros Hp. induction l as [|a l IH] using rev_ind; intros Hs; [exact Hs|].
  rewrite steps_snoc.
  apply (step_keeps_set sm); [now apply only_interrupt_steps|auto].
Qed.

(** Once the flag is set, a further action changes nothing at all. *)
Lemma step_set_noop sm p a :
  only_interrupt sm p -> is_set p = true -> step p a = p.
Proof.
  intros Hp Hs. destruct a as [signum|st|]; simpl.
  - destruct (handlers p !! signum) as [handler|] eqn:E; [|reflexivity].
    destruct (Hp _ _ E) as [-> _].
    rewrite interrupt_keeps_set by exact Hs. now destruct p.
  - now destruct p.
  - now destruct p.
Qed.

(** With the handler installed, the flag after some actions is set exactly
    when one of them was the arrival of [signal.SIGINT]. *)
Lemma is_set_steps_started sm n l :
  signal_SIGINT sm = Some n ->
  is_set (steps (started sm) l) = existsb (fun a => bool_decide (a = Signal n)) l.
Proof.
  intros Hn. induction l as [|a l IH] using rev_ind.
  - unfold started, install_handler. now rewrite Hn.
  - rewrite steps_snoc, existsb_app. simpl. rewrite orb_false_r, <- IH.
    destruct (is_set (steps (started sm) l)) eqn:Hs.
    + simpl. apply (step_keeps_set sm);
        [apply only_interrupt_steps, started_only_interrupt|exact Hs].
    + simpl. destruct (decide (a = Signal n)) as [->|Hne].
      * rewrite bool_decide_eq_true_2 by reflexivity.
        simpl. rewrite steps_handlers, (started_handler _ _ Hn).
        unfold is_set. simpl. now rewrite (interrupt_installed _ _ _ Hn).
      * rewrite bool_decide_eq_false_2 by exact Hne.
        destruct (bool_decide (is_set (step (steps (started sm) l) a)
                               = is_set (steps (started sm) l))) eqn:E.
        -- apply bool_decide_eq_true in E. congruence.
        -- apply bool_decide_eq_false in E.
           destruct (step_writes sm _ a
                       (only_interrupt_steps _ _ l (started_only_interrupt sm)) E)
             as (m & -> & Hm & _).
           congruence.
Qed.

(** Without a handler the flag stays clear, whatever arrives. *)
Lemma is_set_steps_fresh l : is_set (steps fresh l) = false.
Proof.
  induction l as [|a l IH] using rev_ind; [reflexivity|].
  rewrite steps_snoc.
  destruct a as [signum|st|]; simpl; try exact IH.
  rewrite steps_handlers. simpl. rewrite lookup_empty. exact IH.
Qed.

Lemma is_set_at_spec sm n arrivals t :
  signal_SIGINT sm = Some n ->
  is_set_at sm arrivals t
  = existsb (fun a => Qle_bool (fst a) (at_time t) && bool_decide (snd a = n)) arrivals.
Proof.
  intros Hn. unfold is_set_at. rewrite (is_set_steps_started sm n) by exact Hn.
  induction arrivals as [|[ta sa] l IH]; [reflexivity|].
  simpl. destruct (Qle_bool ta (at_time t)); simpl; [|exact IH].
  rewrite IH. f_equal.
  destruct (decide (sa = n)) as [->|Hne].
  - now rewrite !bool_decide_eq_true_2.
  - rewrite !bool_decide_eq_false_2; [reflexivity|assumption|congruence].
Qed.

Lemma is_set_at_monotone sm arrivals t t' :
  t <= t' -> is_set_at sm arrivals t = true -> is_set_at sm arrivals t' = true.
Proof.
  intros Hle. destruct (signal_SIGINT sm) as [n|] eqn:Hn.
  - rewrite !(is_set_at_spec sm n) by exact Hn. rewrite !existsb_exists.
    intros (a & Hin & Ha). exists a. split; [assumption|].
    apply andb_true_iff in Ha as [H1 H2]. apply andb_true_iff. split; [|assumption].
    apply Qle_bool_iff in H1. apply Qle_bool_iff.
    eapply Qle_trans; [exact H1|]. now apply at_time_le.
  - unfold is_set_at, started, install_handler. rewrite Hn. simpl.
    now rewrite is_set_steps_fresh.
Qed.

Lemma interrupted_at_spec T t :
  Scenario.interrupted_at T t = true <-> (T <= at_time t)%Q.
Proof.
  unfold Scenario.interrupted_at.
  rewrite (is_set_at_spec _ SIGINT) by reflexivity. simpl.
  rewrite orb_false_r, andb_true_r. apply Qle_bool_iff.
Qed.

(** A SIGINT that arrives on a time of the clock. *)
Lemma interrupted_at_time T t :
  Scenario.interrupted_at (at_time T) t = true <-> T <= t.
Proof. rewrite interrupted_at_spec. apply at_time_le. Qed.

Lemma never_interrupted_spec t : Scenario.never_interrupted t = false.
Proof. reflexivity. Qed.

End WorkflowFacts.

(** ** Signals and processes *)

Module PosixFacts.
Import Posix.

Lemma after_app tr1 tr2 procs : after (tr1 ++ tr2) procs = after tr2 (after tr1 procs).
Proof. unfold after. apply fold_left_app. Qed.

Lemma after_sleeps tr procs : Forall is_sleep tr -> after tr procs = procs.
Proof.
  intros H. revert procs. induction H as [|ev tr Hev _ IH]; intros procs; [reflexivity|].
  destruct ev; try contradiction. simpl. apply IH.
Qed.

Lemma alive_deliver_kill procs pid : alive (deliver procs (EvKill pid)) pid = false.
Proof.
  unfold alive. simpl. induction procs as [|p procs IH]; [reflexivity|].
  simpl. rewrite IH, orb_false_r.
  destruct (p_pid p =? pid)%Z eqn:E.
  - unfold receive. simpl. rewrite E. reflexivity.
  - now rewrite E.
Qed.

Lemma alive_after_kill tr procs pid :
  alive (after (tr ++ [EvKill pid]) procs) pid = false.
Proof. rewrite after_app. simpl. apply alive_deliver_kill. Qed.

End PosixFacts.

(** ** What the methods leave unchanged *)

#[global] Instance errors_extend_preorder : PreOrder errors_extend.
Proof.
  split.
  - intros s. split; reflexivity.
  - intros s1 s2 s3 [H1 H2] [H3 H4]. split; etrans; eassumption.
Qed.

#[global] Instance held_extend_preorder : PreOrder held_extend.
Proof.
  split.
  - intros s. split; reflexivity.
  - intros s1 s2 s3 [H1 H2] [H3 H4]. split; etrans; eassumption.
Qed.

#[global] Instance errors_recorded_preorder : PreOrder errors_recorded.
Proof.
  split.
  - intros s. split; [reflexivity|]. left. split; reflexivity.
  - intros s1 s2 s3 [H1 H2] [H3 H4]. split; [etrans; eassumption|].
    destruct H4 as [[H4 H5]|H4]; [|now right].
    destruct H2 as [[H2 H6]|H2].
    + left. split; congruence.
    + right. unfold held in *. congruence.
Qed.

#[global] Instance keeps_held_preorder : PreOrder keeps_held.
Proof.
  split.
  - intros s. reflexivity.
  - intros s1 s2 s3 H1 H2. unfold keeps_held in *. congruence.
Qed.

#[global] Instance emits_preorder P : PreOrder (emits P).
Proof.
  split.
  - intros s. exists []. split; [now rewrite app_nil_r|constructor].
  - intros s1 s2 s3 (tr1 & H1 & F1) (tr2 & H2 & F2). exists (tr1 ++ tr2).
    split; [now rewrite H2, H1, app_assoc|now apply Forall_app].
Qed.

#[global] Instance keeps_preorder {X} (f : JobData -> X) : PreOrder (keeps f).
Proof.
  split.
  - intros s. reflexivity.
  - intros s1 s2 s3 H1 H2. unfold keeps in *. congruence.
Qed.

Section Preserves.

Context (R : Executor -> Executor -> Prop) `{!PreOrder R}.

Lemma preserves_ret {A} (a : A) : preserves R (mret a).
Proof. intros s. reflexivity. Qed.

Lemma preserves_raise {A} e : preserves R (@raise A e).
Proof. intros s. reflexivity. Qed.

Lemma preserves_running {A} : preserves R (fun s => (@Running A, s)).
Proof. intros s. reflexivity. Qed.

Lemma preserves_get_job : preserves R get_job.
Proof. intros s. reflexivity. Qed.

Lemma preserves_now : preserves R now.
Proof. intros s. reflexivity. Qed.

Lemma preserves_bind {A B} (m : M A) (k : A -> M B) :
  preserves R m -> (forall a, preserves R (k a)) -> preserves R (m ≫= k).
Proof.
  intros Hm Hk s. unfold mbind, M_bind, bind. specialize (Hm s).
  destruct (m s) as [[a| |] s']; simpl in *; [|assumption..].
  etrans; [exact Hm|apply Hk].
Qed.

Lemma preserves_try_except {A} (m : M A) (h : exn -> M A) :
  preserves R m -> (forall e, preserves R (h e)) -> preserves R (try_except m h).
Proof.
  intros Hm Hh s. unfold try_except. specialize (Hm s).
  destruct (m s) as [[a|e|] s']; simpl in *; [assumption| |assumption].
  etrans; [exact Hm|apply Hh].
Qed.

Lemma preserves_modify (f : Executor -> Executor) :
  (forall s, R s (f s)) -> preserves R (modify f).
Proof. intros H s. apply H. Qed.

End Preserves.

(** The changes of the object that the methods are made of. *)
Lemma errors_extend_same s s' :
  piloterrorcodes (job s') = piloterrorcodes (job s) ->
  piloterrordiags (job s') = piloterrordiags (job s) ->
  errors_extend s s'.
Proof. intros H1 H2. split; [rewrite H1|rewrite H2]; reflexivity. Qed.

Lemma errors_recorded_same s s' :
  job_errors s' = job_errors s -> errors s' = errors s -> errors_recorded s s'.
Proof.
  intros H1 H2. split; [|now left].
  split; rewrite H2; reflexivity.
Qed.

Lemma errors_recorded_record code s :
  errors_recorded s
    (with_job (set_pilot_errors (add_error_code code (errors s)).1)
       (with_errors (add_error_code code (errors s)).2 s)).
Proof.
  split; [|now right].
  split; simpl; now apply prefix_app_r.
Qed.

(** Recording by assignment only keeps lists that are in step appended
    to. *)
Lemma errors_recorded_in_step s s' :
  errors_recorded s s' -> in_step s -> errors_extend s s' /\ in_step s'.
Proof.
  unfold in_step, job_errors, held, errors_extend.
  intros [[Hc Hd] [[Hj He]|Hj]] Hs.
  - injection Hj as Hj1 Hj2. rewrite Hj1, Hj2, He. auto.
  - injection Hs as Hs1 Hs2. injection Hj as Hj1 Hj2.
    rewrite Hj1, Hj2, Hs1, Hs2. auto.
Qed.

Lemma append_only_of {A} (m : M A) : preserves errors_recorded m -> append_only m.
Proof.
  intros H s. split; [apply H|]. apply errors_recorded_in_step, H.
Qed.

Lemma emits_event (P : event -> Prop) ev s : P ev -> emits P s (with_event ev s).
Proof. intros H. exists [ev]. split; [reflexivity|]. now constructor. Qed.

Lemma emits_same P s s' : trace s' = trace s -> emits P s s'.
Proof. intros H. exists []. split; [now rewrite app_nil_r|constructor]. Qed.

(** Takes a goal [preserves R m] apart along the structure of [m]; [prim]
    settles the changes of the object themselves. *)
Ltac preserves_with prim :=
  repeat
    (intros;
     lazymatch goal with
     | |- preserves _ (mret _) => apply preserves_ret; try typeclasses eauto
     | |- preserves _ (ret _) => apply (preserves_ret _ _); try typeclasses eauto
     | |- preserves _ (raise _) => apply preserves_raise; try typeclasses eauto
     | |- preserves _ (fun s => (Running, s)) =>
         apply preserves_running; try typeclasses eauto
     | |- preserves _ get_job => apply preserves_get_job; try typeclasses eauto
     | |- preserves _ now => apply preserves_now; try typeclasses eauto
     | |- preserves _ (_ ≫= _) =>
         apply preserves_bind; [typeclasses eauto| |]
     | |- preserves _ (try_except _ _) =>
         apply preserves_try_except; [typeclasses eauto| |]
     | |- preserves _ (modify_job _) => unfold modify_job
     | |- preserves _ (emit _) => unfold emit
     | |- preserves _ (modify _) => apply preserves_modify; intros; prim
     | |- preserves _ (match ?x with _ => _ end) => destruct x eqn:?
     | |- preserves _ (let '(_, _) := ?x in _) => destruct x eqn:?
     | |- preserves _ _ => first [solve [eauto with preserves] | progress cbv zeta]
     end).

Ltac prim_errors :=
  first [ apply errors_recorded_record
        | apply errors_recorded_same; reflexivity ].

Ltac prim_emits :=
  first [ apply emits_event; simpl; solve [exact I | auto | intros []]
        | apply emits_same; reflexivity ].

Ltac prim_keeps := reflexivity.

Create HintDb preserves.

(** Unfolds the methods that are not loops. *)
Ltac unfold_methods :=
  unfold run, run_round, stop_utilities, run_preprocess, get_payload_command,
    wait_graceful, run_payload, execute_utility_command, write_utility_output,
    write_logged, utility_after_payload_finished, utility_after_payload_started,
    utility_with_payload, utility_before_payload, post_utility_command_action,
    get_utility_commands, getpgid, killpg, pid_of,
    pre_setup, post_setup, pre_payload, post_payload, add_to_pilot_timing,
    send_state, set_pilot_state, record_error, sleep.

Ltac unfold_methods_in H :=
  unfold run, run_round, stop_utilities, run_preprocess, get_payload_command,
    wait_graceful, run_payload, execute_utility_command, write_utility_output,
    write_logged, utility_after_payload_finished, utility_after_payload_started,
    utility_with_payload, utility_before_payload, post_utility_command_action,
    get_utility_commands, getpgid, killpg, pid_of,
    pre_setup, post_setup, pre_payload, post_payload, add_to_pilot_timing,
    send_state, set_pilot_state, record_error, sleep in H.

(** Unfolds the sequencing of effects. *)
Ltac unfold_monad_in H :=
  unfold mbind, M_bind, bind, try_except, mret, M_ret, ret, raise, get_job, now,
    emit, modify_job, modify in H.

Arguments path_join : simpl never.
Arguments extract_setup : simpl never.
Arguments PyStr.replace : simpl never.

(** Case analysis on what the world answers, innermost call first. *)
Ltac innermost_destruct H :=
  match type of H with
  | context [match ?x with _ => _ end] =>
      lazymatch x with
      | context [match _ with _ => _ end] => fail
      | _ => destruct x eqn:?
      end
  end.

Ltac run_in H :=
  repeat (innermost_destruct H; cbn beta iota zeta in H;
          try discriminate H; try congruence).

(** ** Errors are recorded by assignment only *)

Lemma flag_checks_errors w n pid : preserves errors_recorded (flag_checks w n pid).
Proof.
  induction n as [|n IH]; cbn [flag_checks]; unfold_methods;
    preserves_with prim_errors.
Qed.
#[global] Hint Resolve flag_checks_errors : preserves.

Lemma wait_graceful_loop_errors w cycles pid exit_code :
  preserves errors_recorded (wait_graceful_loop w cycles pid exit_code).
Proof.
  revert exit_code. induction cycles as [|cycles IH]; intros exit_code;
    cbn [wait_graceful_loop]; unfold_methods; preserves_with prim_errors.
Qed.
#[global] Hint Resolve wait_graceful_loop_errors : preserves.

Lemma stop_each_errors w keys : preserves errors_recorded (stop_each w keys).
Proof.
  induction keys as [|utcmd keys IH]; cbn [stop_each]; unfold_methods;
    preserves_with prim_errors.
Qed.
#[global] Hint Resolve stop_each_errors : preserves.

Lemma run_round_errors w cycles it cmd :
  preserves errors_recorded (run_round w cycles it cmd).
Proof. unfold_methods. preserves_with prim_errors. Qed.
#[global] Hint Resolve run_round_errors : preserves.

Lemma run_loop_errors w rounds cycles it cmd :
  preserves errors_recorded (run_loop w rounds cycles it cmd).
Proof.
  revert it cmd. induction rounds as [|rounds IH]; intros it cmd;
    cbn [run_loop]; preserves_with prim_errors.
Qed.
#[global] Hint Resolve run_loop_errors : preserves.

Lemma run_errors w rounds cycles : preserves errors_recorded (run w rounds cycles).
Proof. unfold_methods. preserves_with prim_errors. Qed.

(** [run_payload] records no error, however it ends. *)
Lemma flag_checks_keeps {X} (f : JobData -> X) w n pid :
  preserves (keeps f) (flag_checks w n pid).
Proof.
  induction n as [|n IH]; cbn [flag_checks]; unfold_methods;
    preserves_with prim_keeps.
Qed.
#[global] Hint Resolve flag_checks_keeps : preserves.

Lemma wait_graceful_loop_keeps {X} (f : JobData -> X) w cycles pid exit_code :
  preserves (keeps f) (wait_graceful_loop w cycles pid exit_code).
Proof.
  revert exit_code. induction cycles as [|cycles IH]; intros exit_code;
    cbn [wait_graceful_loop]; unfold_methods; preserves_with prim_keeps.
Qed.
#[global] Hint Resolve wait_graceful_loop_keeps : preserves.

Lemma run_payload_keeps_errorcodes w it cmd :
  preserves (keeps piloterrorcodes) (run_payload w it cmd).
Proof. unfold_methods. preserves_with prim_keeps. Qed.

Lemma run_payload_keeps_errordiags w it cmd :
  preserves (keeps piloterrordiags) (run_payload w it cmd).
Proof. unfold_methods. preserves_with prim_keeps. Qed.

Lemma flag_checks_keeps_held w n pid : preserves keeps_held (flag_checks w n pid).
Proof.
  induction n as [|n IH]; cbn [flag_checks]; unfold_methods;
    preserves_with prim_keeps.
Qed.
#[global] Hint Resolve flag_checks_keeps_held : preserves.

Lemma run_payload_keeps_held w it cmd :
  preserves keeps_held (run_payload w it cmd).
Proof. unfold_methods. preserves_with prim_keeps. Qed.

(** ** The loop of [run] *)

Lemma run_prologue_loop w rounds cycles s :
  run w rounds cycles s = (run_prologue w ≫= run_loop w rounds cycles 1) s.
Proof.
  unfold run, run_prologue. unfold mbind, M_bind, bind.
  destruct (pre_setup s) as [[[]| |] s1]; try reflexivity.
  destruct (get_payload_command w s1) as [[cmd| |] s2]; reflexivity.
Qed.

Lemma run_loop_break w rounds cycles it cmd s exit_code s' :
  run_round w cycles it cmd s = (Return (Break exit_code), s') ->
  run_loop w (S rounds) cycles it cmd s = (Return exit_code, s').
Proof. intros H. cbn [run_loop]. now rewrite (bind_return _ _ _ _ _ H). Qed.

Lemma run_loop_again w rounds cycles it cmd s cmd' s' :
  run_round w cycles it cmd s = (Return (Again cmd'), s') ->
  run_loop w (S rounds) cycles it cmd s = run_loop w rounds cycles (S it) cmd' s'.
Proof. intros H. cbn [run_loop]. now rewrite (bind_return _ _ _ _ _ H). Qed.

(** What the loop returns from a later round on, it returns from the
    start, given the rounds to get there. *)
Lemma run_loop_rounds_on w cycles n x y :
  rounds_on w cycles n x y ->
  forall rounds,
    run_loop w (n + rounds) cycles x.1.1 x.1.2 x.2
    = run_loop w rounds cycles y.1.1 y.1.2 y.2.
Proof.
  induction 1 as [x|n it cmd s cmd' s' y Hround _ IH]; intros rounds.
  - reflexivity.
  - cbn [fst snd]. change (S n + rounds) with (S (n + rounds)).
    rewrite (run_loop_again _ _ _ _ _ _ _ _ Hround). apply IH.
Qed.

Lemma run_round_of_run w cycles s0 n it cmd s :
  round_of_run w cycles s0 n it cmd s ->
  forall rounds, run w (n + rounds) cycles s0 = run_loop w rounds cycles it cmd s.
Proof.
  intros (cmd0 & s_setup & Hpro & Hon) rounds.
  rewrite run_prologue_loop, (bind_return _ _ _ _ _ Hpro).
  apply (run_loop_rounds_on _ _ _ _ _ Hon).
Qed.

(** *** The sentinel exit code of the preprocess *)

Lemma run_preprocess_sentinel_errors w it s s1 :
  run_preprocess w it s = (Return 160%Z, s1) ->
  piloterrorcodes (job s1) = piloterrorcodes (job s) /\
  piloterrordiags (job s1) = piloterrordiags (job s).
Proof.
  intros H. unfold_methods_in H. unfold_monad_in H.
  run_in H.
  all: injection H as H1 H2; subst.
  all: try discriminate.
  all: simpl; auto.
Qed.

Lemma run_preprocess_no_launch w it :
  preserves (emits not_launch) (run_preprocess w it).
Proof. unfold_methods. preserves_with prim_emits. Qed.

Lemma run_round_sentinel w cycles it cmd s s1 :
  run_preprocess w it s = (Return 160%Z, s1) ->
  run_round w cycles it cmd s = (Return (Break 0%Z), s1).
Proof.
  intros H. unfold run_round.
  unfold mbind at 1, M_bind at 1, bind at 1, get_job at 1. cbn beta iota zeta.
  rewrite (bind_return _ _ _ _ _ H).
  reflexivity.
Qed.

(** ** [stop_utilities] *)

Lemma with_events_nil s : with_events [] s = s.
Proof. destruct s. unfold with_events. simpl. now rewrite app_nil_r. Qed.

Lemma with_events_app tr1 tr2 s :
  with_events tr2 (with_events tr1 s) = with_events (tr1 ++ tr2) s.
Proof. unfold with_events. simpl. now rewrite app_assoc. Qed.

Lemma set_utilities_same j : set_utilities (utilities j) j = j.
Proof. now destruct j. Qed.

Lemma with_job_id s : with_job (fun j => j) s = s.
Proof. now destruct s. Qed.

(** The signalling under [try ... except] never raises: it leaves one
    event. *)
Lemma try_signal w h sig s :
  try_except (pid ← pid_of h; pgid ← getpgid w pid; killpg w pgid sig)
             (fun _ => emit (EvLog WARNING)) s
  = (Return tt, with_events [signal_attempt w (clock s) h sig] s).
Proof.
  unfold try_except, signal_attempt, pid_of, getpgid, killpg.
  unfold mbind, M_bind, bind, now, mret, M_ret, ret, raise, emit, modify.
  destruct h as [pid| |]; try reflexivity.
  destruct (os_getpgid w (clock s) pid) as [pgid|]; [|reflexivity].
  destruct (os_killpg w (clock s) pgid sig); reflexivity.
Qed.

Section StopUtilities.

Context (w : world).
Hypothesis hook_keeps_table :
  forall utcmd j, user_post_utility_command_action w utcmd j = utilities j.

Lemma post_utility_command_action_keeps utcmd s :
  post_utility_command_action w utcmd s
  = (Return tt, with_events [EvPostAction utcmd] s).
Proof using hook_keeps_table.
  unfold post_utility_command_action.
  unfold mbind, M_bind, bind, emit, modify_job, modify.
  f_equal. unfold with_job, with_events, with_event. simpl.
  f_equal. rewrite hook_keeps_table. apply set_utilities_same.
Qed.

Lemma stop_each_keeps l : forall s,
  (forall utcmd u, In (utcmd, u) l -> utilities (job s) !! utcmd = Some u) ->
  stop_each w l.*1 s = (Return tt, with_events (stop_events w (clock s) l) s).
Proof using hook_keeps_table.
  induction l as [|[utcmd u] l IH]; intros s Hl.
  - simpl. now rewrite with_events_nil.
  - cbn [fmap list_fmap fst stop_each].
    unfold mbind at 1, M_bind at 1, bind at 1, get_job at 1. cbn beta iota zeta.
    rewrite (Hl utcmd u) by now left.
    unfold stop_events. cbn [flat_map fst snd].
    fold (stop_events w (clock s) l).
    destruct (truthy (ut_proc u)).
    + unfold mbind at 1, M_bind at 1, bind at 1.
      rewrite (bind_return _ _ _ _ _ (try_signal w _ _ s)).
      rewrite post_utility_command_action_keeps, with_events_app.
      rewrite IH; [now rewrite with_events_app|].
      intros k v Hin. apply Hl. now right.
    + unfold mbind at 1, M_bind at 1, bind at 1. cbn beta iota zeta.
      unfold mret, M_ret, ret. rewrite IH; [reflexivity|].
      intros k v Hin. apply Hl. now right.
Qed.

Lemma stop_utilities_keeps s :
  stop_utilities w s
  = (Return tt,
     with_events (stop_events w (clock s) (map_to_list (utilities (job s)))) s).
Proof using hook_keeps_table.
  unfold stop_utilities, keys.
  unfold mbind at 1, M_bind at 1, bind at 1, get_job at 1. cbn beta iota zeta.
  apply stop_each_keeps. intros utcmd u Hin.
  apply elem_of_map_to_list. now apply list_elem_of_In.
Qed.

End StopUtilities.

Lemma in_stop_events w t l ev :
  In ev (stop_events w t l) <->
  exists utcmd u, In (utcmd, u) l /\ truthy (ut_proc u) = true /\
    (ev = signal_attempt w t (ut_proc u) (user_get_utility_command_kill_signal w utcmd)
     \/ ev = EvPostAction utcmd).
Proof.
  unfold stop_events. rewrite in_flat_map. split.
  - intros ([utcmd u] & Hin & Hev). simpl in Hev.
    destruct (truthy (ut_proc u)) eqn:E; [|contradiction].
    exists utcmd, u. simpl in Hev. intuition.
  - intros (utcmd & u & Hin & Ht & Hev). exists (utcmd, u). split; [assumption|].
    simpl. rewrite Ht. simpl. intuition.
Qed.

Lemma signal_attempt_not_post w t h sig utcmd :
  signal_attempt w t h sig <> EvPostAction utcmd.
Proof.
  unfold signal_attempt. destruct h; try discriminate.
  destruct (os_getpgid w t pid0); [|discriminate].
  destruct (os_killpg w t z sig); discriminate.
Qed.

(** *** Whatever the hook does *)









(** ** The record of events only grows *)

Lemma flag_checks_emits w n pid : preserves (emits any_event) (flag_checks w n pid).
Proof.
  induction n as [|n IH]; cbn [flag_checks]; unfold_methods;
    preserves_with prim_emits.
Qed.
#[global] Hint Resolve flag_checks_emits : preserves.

Lemma wait_graceful_loop_emits w cycles pid exit_code :
  preserves (emits any_event) (wait_graceful_loop w cycles pid exit_code).
Proof.
  revert exit_code. induction cycles as [|cycles IH]; intros exit_code;
    cbn [wait_graceful_loop]; unfold_methods; preserves_with prim_emits.
Qed.
#[global] Hint Resolve wait_graceful_loop_emits : preserves.

Lemma stop_each_emits w keys : preserves (emits any_event) (stop_each w keys).
Proof.
  induction keys as [|utcmd keys IH]; cbn [stop_each]; unfold_methods;
    preserves_with prim_emits.
Qed.
#[global] Hint Resolve stop_each_emits : preserves.

(** After events known to have been added, what follows adds to them. *)
Lemma emits_then {A B} (m : M A) (k : A -> M B) s a s1 tr0 :
  m s = (Return a, s1) ->
  trace s1 = trace s ++ tr0 ->
  preserves (emits any_event) (k a) ->
  exists tr, trace ((m ≫= k) s).2 = trace s ++ tr0 ++ tr.
Proof.
  intros Hm Htr Hk. rewrite (bind_return _ _ _ _ _ Hm).
  destruct (Hk s1) as (tr & Ht & _). exists tr.
  now rewrite Ht, Htr, app_assoc.
Qed.

(** *** The command is launched as it stands *)

(** When there is a utility command to go with the payload, [run_payload]
    hands the command it was given to [execute]. *)
Lemma run_payload_launches w it cmd s d jobparams' :
  user_get_utility_commands w it UTILITY_WITH_PAYLOAD (job s) = inl (Some d, jobparams') ->
  exists tr,
    trace (run_payload w it cmd s).2
    = trace s ++ [EvTiming PILOT_PRE_PAYLOAD; EvLaunch cmd] ++ tr.
Proof.
  intros Hd. unfold run_payload.
  set (s1 := with_event (EvLaunch cmd)
               (with_job (set_jobparams jobparams')
                  (with_event (EvTiming PILOT_PRE_PAYLOAD) s))).
  assert (Hpre : (pre_payload ≫= (fun _ => utility_with_payload w it
                    ≫= (fun _ => emit (EvLaunch cmd)))) s = (Return tt, s1)).
  { unfold pre_payload, add_to_pilot_timing, utility_with_payload,
      get_utility_commands.
    unfold mbind, M_bind, bind, emit, modify_job, modify, get_job. simpl.
    rewrite Hd. reflexivity. }
  match goal with
  | |- exists tr, trace ((_ ≫= (fun _ => _ ≫= (fun _ => _ ≫= ?K))) s).2 = _ =>
      destruct (emits_then _ K s tt s1 [EvTiming PILOT_PRE_PAYLOAD; EvLaunch cmd] Hpre)
        as (tr & Htr)
  end.
  - unfold s1. simpl. now rewrite <- app_assoc.
  - unfold_methods. preserves_with prim_emits.
  - exists tr. rewrite <- Htr. f_equal.
    unfold mbind, M_bind, bind.
    destruct (pre_payload s) as [[[]| |] sa]; [|reflexivity..].
    destruct (utility_with_payload w it sa) as [[c| |] sb]; reflexivity.
Qed.

(** A round whose preprocess step succeeds goes on to [run_payload] with
    the command, updated when the preprocess has changed the job
    parameters. *)
Lemma run_round_launches w cycles it cmd s s1 d jobparams' :
  run_preprocess w it s = (Return 0%Z, s1) ->
  user_get_utility_commands w it UTILITY_WITH_PAYLOAD (job s1) = inl (Some d, jobparams') ->
  exists tr,
    trace (run_round w cycles it cmd s).2
    = trace s1
        ++ [EvTiming PILOT_PRE_PAYLOAD;
            EvLaunch (updated_command cmd (jobparams (job s)) (jobparams (job s1)))]
        ++ tr.
Proof.
  intros Hpre Hd. unfold run_round.
  unfold mbind at 1, M_bind at 1, bind at 1, get_job at 1. cbn beta iota zeta.
  rewrite (bind_return _ _ _ _ _ Hpre).
  unfold mbind at 1, M_bind at 1, bind at 1, get_job at 1. cbn beta iota zeta.
  change (nonzero 0) with false. cbn beta iota.
  fold (updated_command cmd (jobparams (job s)) (jobparams (job s1))).
  set (cmd' := updated_command cmd (jobparams (job s)) (jobparams (job s1))).
  destruct (run_payload_launches w it cmd' s1 d jobparams' Hd) as (tr0 & Htr0).
  unfold mbind at 1, M_bind at 1, bind at 1.
  destruct (run_payload w it cmd' s1) as [[proc|e|] s2] eqn:Hrun; simpl in Htr0.
  - cbn beta iota. destruct proc as [pid|].
    + match goal with
      | |- exists tr, trace (?X s2).2 = _ =>
          assert (HK : preserves (emits any_event) X)
      end.
      { unfold_methods. preserves_with prim_emits. }
      destruct (HK s2) as (tr & Ht & _). exists (tr0 ++ tr).
      rewrite Ht, Htr0. now rewrite <- !app_assoc.
    + exists tr0. exact Htr0.
  - exists tr0. exact Htr0.
  - exists tr0. exact Htr0.
Qed.

(** The empty command after the update: it stays empty unless the job
    parameters were empty before the preprocess, in which case it becomes the
    new job parameters. *)
Lemma updated_command_empty pre post :
  updated_command [] pre post = match pre with [] => post | _ => [] end.
Proof.
  unfold updated_command. destruct (decide (pre = post)) as [<-|Hne].
  - now destruct pre.
  - destruct pre as [|c pre]; [|reflexivity].
    unfold PyStr.replace. simpl. apply app_nil_r.
Qed.

(** *** A command that cannot be resolved *)

Lemma get_payload_command_error w s code :
  user_get_payload_command w (job s) = inr (PilotException code) ->
  exists s1,
    get_payload_command w s = (Return [], s1) /\
    job_errors s1 = (add_error_code code (errors s)).1 /\
    errors s1 = (add_error_code code (errors s)).2 /\
    traces_pilot_error_code s1 = head (pilot_error_codes (errors s) ++ [code]) /\
    setup (job s1) = setup (job s) /\
    jobparams (job s1) = jobparams (job s) /\
    trace s1 = trace s ++ [EvTiming PILOT_POST_SETUP; EvLog ERROR; EvLog FATAL].
Proof.
  intros H. unfold get_payload_command.
  unfold mbind at 1, M_bind at 1, bind at 1, get_job at 1. cbn beta iota zeta.
  rewrite H. unfold_methods.
  unfold mbind, M_bind, bind, emit, modify_job, modify, get_job, mret, M_ret, ret.
  unfold job_errors. simpl.
  destruct (pilot_error_codes (errors s)) as [|c0 l] eqn:E; simpl;
    eexists; repeat split; simpl; rewrite ?E, <- ?app_assoc; reflexivity.
Qed.

(** ** The postprocess step *)




Lemma execute_utility_command_keeps_utilities w it cmd label :
  preserves (keeps utilities) (execute_utility_command w it cmd label).
Proof. unfold_methods. preserves_with prim_keeps. Qed.

Lemma run_preprocess_keeps_is_hpo w it :
  preserves (keeps is_hpo) (run_preprocess w it).
Proof. unfold_methods. preserves_with prim_keeps. Qed.

Lemma run_payload_keeps_is_hpo w it cmd :
  preserves (keeps is_hpo) (run_payload w it cmd).
Proof. unfold_methods. preserves_with prim_keeps. Qed.

Lemma wait_graceful_keeps {X} (f : JobData -> X) w cycles pid :
  preserves (keeps f) (wait_graceful w cycles pid).
Proof. unfold wait_graceful. apply wait_graceful_loop_keeps. Qed.


(** The end of a round for a job that is not an HPO job: the utilities are
    stopped and the loop is left with the exit code in hand. *)
Lemma stop_and_break w exit_code cmd s :
  (forall utcmd j, user_post_utility_command_action w utcmd j = utilities j) ->
  is_hpo (job s) = false ->
  exists s',
    ((j ← get_job;
      (if decide (utilities j = ∅) then ret tt else stop_utilities w);;
      j ← get_job;
      if is_hpo j then ret (Again cmd) else ret (Break exit_code)) : M round_end) s
    = (Return (Break exit_code), s') /\
    job s' = job s /\
    s' = with_events (stop_events w (clock s) (map_to_list (utilities (job s)))) s.
Proof.
  intros Hhook Hhpo.
  unfold mbind at 1, M_bind at 1, bind at 1, get_job at 1. cbn beta iota zeta.
  destruct (decide (utilities (job s) = ∅)) as [He|Hne].
  - exists s. unfold mbind, M_bind, bind, mret, M_ret, ret, get_job. simpl.
    rewrite Hhpo, He, map_to_list_empty. simpl. now rewrite with_events_nil.
  - rewrite (bind_return _ _ _ _ _ (stop_utilities_keeps w Hhook s)).
    eexists. unfold mbind, M_bind, bind, mret, M_ret, ret, get_job. simpl.
    rewrite Hhpo. repeat split; reflexivity.
Qed.

Lemma send_state_eq st s : send_state st s = (Return tt, with_event (EvSendState st) s).
Proof. reflexivity. Qed.

Lemma set_pilot_state_eq st s :
  set_pilot_state st s = (Return tt, with_job (set_state st) s).
Proof. reflexivity. Qed.

Lemma bind_ret {A B} (a : A) (k : A -> M B) s : (ret a ≫= k) s = k a s.
Proof. reflexivity. Qed.



(** ** The setup of the job *)

Lemma stop_each_keeps_setup w keys : preserves (keeps setup) (stop_each w keys).
Proof.
  induction keys as [|utcmd keys IH]; cbn [stop_each]; unfold_methods;
    preserves_with prim_keeps.
Qed.
#[global] Hint Resolve stop_each_keeps_setup : preserves.

Lemma run_round_keeps_setup w cycles it cmd :
  preserves (keeps setup) (run_round w cycles it cmd).
Proof. unfold_methods. preserves_with prim_keeps. Qed.
#[global] Hint Resolve run_round_keeps_setup : preserves.

Lemma run_loop_keeps_setup w rounds cycles it cmd :
  preserves (keeps setup) (run_loop w rounds cycles it cmd).
Proof.
  revert it cmd. induction rounds as [|rounds IH]; intros it cmd;
    cbn [run_loop]; preserves_with prim_keeps.
Qed.

(** ** More on the string operations *)

Lemma replace_empty_pattern s : PyStr.replace s [] [] = s.
Proof.
  unfold PyStr.replace. simpl. induction s as [|c s IH]; [reflexivity|].
  simpl. now rewrite IH.
Qed.

Lemma replace_length_le s p : length (PyStr.replace s p []) <= length s.
Proof.
  destruct p as [|c p].
  - now rewrite replace_empty_pattern.
  - unfold PyStr.replace.
    pose proof (PyStrFacts.replace_scan_length_le (c :: p) 0 s). lia.
Qed.

Lemma removelast_length_le {A} (l : list A) : length (removelast l) <= length l.
Proof.
  induction l as [|x l IH]; [reflexivity|].
  simpl. destruct l; simpl in *; lia.
Qed.

(** ** Writing the output of a utility command *)

Lemma write_utility_output_effect :
  forall w it workdir step s,
    let out := path_join workdir (step ++ "_stdout.txt") in
    let err := path_join workdir (step ++ "_stderr.txt") in
    let r := write_utility_output w it workdir step s in
    r.1 = Return tt /\
    trace r.2 = trace s ++ [write_event w it out; write_event w it err] /\
    job r.2 = job s /\
    errors r.2 = errors s /\
    (preprocess_stdout r.2, preprocess_stderr r.2)
    = (if decide (step = "preprocess")
       then (step ++ "_stdout.txt", step ++ "_stderr.txt")
       else (preprocess_stdout s, preprocess_stderr s)) /\
    (postprocess_stdout r.2, postprocess_stderr r.2)
    = (if decide (step = "postprocess")
       then (step ++ "_stdout.txt", step ++ "_stderr.txt")
       else (postprocess_stdout s, postprocess_stderr s)).
Proof.
  intros w it workdir step s out err r. unfold r, write_utility_output, write_logged.
  fold out. fold err. unfold write_event.
  unfold mbind, M_bind, bind, emit, modify, mret, M_ret, ret.
  destruct (decide (step = "preprocess")) as [->|Hpre].
  - destruct (decide (("preprocess" : str) = "postprocess")) as [Habs|_];
      [discriminate Habs|].
    cbn beta iota zeta.
    destruct (write_file w it out), (write_file w it err); cbn;
      rewrite <- ?app_assoc; repeat split; reflexivity.
  - destruct (decide (step = "postprocess")) as [->|Hpost]; cbn beta iota zeta;
      destruct (write_file w it out), (write_file w it err); cbn;
      rewrite <- ?app_assoc; repeat split; reflexivity.
Qed.

(** ** [extract_setup]: examples and properties *)

Example extract_setup_doc_example :
  extract_setup "source env.sh; module load x; run.exe --opt"
  = "source env.sh; module load x; ".
Proof. reflexivity. Qed.

Example extract_setup_ex1 : extract_setup "a;b;;" = "a;b;".
Proof. reflexivity. Qed.

Example extract_setup_ex2 : extract_setup "x;x;" = ";".
Proof. reflexivity. Qed.

Example extract_setup_ex3 : extract_setup "  run.exe --opt " = "".
Proof. reflexivity. Qed.


Section ExtractSetupFacts.
Import PyStr PyStrFacts.

Lemma clause_nonempty (ws1 p ws2 : str) : p <> [] -> ws1 ++ p ++ ws2 <> [].
Proof.
  intros Hp H. apply app_eq_nil in H as [_ H]. apply app_eq_nil in H as [H _]. auto.
Qed.

Lemma clause_no_semicolon (ws1 p ws2 : str) :
  blank ws1 -> blank ws2 -> ~ In ";"%char p -> ~ In ";"%char (ws1 ++ p ++ ws2).
Proof.
  intros H1 H2 Hp. rewrite !in_app_iff.
  pose proof (blank_not_semicolon _ H1). pose proof (blank_not_semicolon _ H2).
  tauto.
Qed.

(** Dropping the closing semicolon leaves the clauses. *)
Lemma chomp_semicolon cmd pre ws1 p ws2 tail :
  decomposes cmd pre ws1 p ws2 tail ->
  (if endswith (strip cmd) ";" then removelast (strip cmd) else strip cmd)
  = pre ++ ws1 ++ p ++ ws2.
Proof.
  intros (Hcmd & Htail & _ & H1 & H2 & Hp & _ & Hsemi).
  rewrite Hcmd. destruct Htail as [->| ->].
  - rewrite app_nil_r.
    rewrite endswith_app by now apply clause_nonempty.
    destruct (endswith (ws1 ++ p ++ ws2) ";") eqn:E; [|reflexivity].
    apply endswith_In in E. now apply clause_no_semicolon in E.
  - replace (pre ++ ws1 ++ p ++ ws2 ++ [";"%char])
      with ((pre ++ ws1 ++ p ++ ws2) ++ [";"%char])
      by now rewrite <- !app_assoc.
    now rewrite endswith_snoc, removelast_last.
Qed.

Lemma extract_setup_decomposed cmd pre ws1 p ws2 tail :
  decomposes cmd pre ws1 p ws2 tail ->
  extract_setup cmd = replace pre p [] ++ ws1 ++ ws2.
Proof.
  intros Hd. unfold extract_setup. rewrite (chomp_semicolon _ _ _ _ _ _ Hd).
  destruct Hd as (_ & _ & Hpre & H1 & H2 & Hp & Hstrip & Hsemi).
  rewrite last_split_prefix by (auto using clause_no_semicolon).
  rewrite strip_padded by assumption.
  destruct Hpre as [->|He].
  - rewrite replace_nil by assumption. rewrite !app_nil_l.
    now apply replace_padded.
  - apply endswith_snoc_inv in He as [a ->].
    rewrite <- !app_assoc. simpl.
    rewrite (replace_app_sep _ _ _ a []) by assumption.
    rewrite replace_app_sep by assumption.
    rewrite replace_nil, replace_padded by assumption.
    now rewrite <- !app_assoc.
Qed.

End ExtractSetupFacts.

Lemma extract_setup_no_semicolon cmd :
  ~ In ";"%char cmd -> extract_setup cmd = [].
Proof.
  intros Hn. unfold extract_setup.
  assert (Hs : ~ In ";"%char (PyStr.strip cmd)).
  { intros H. now apply PyStrFacts.elem_of_strip in H. }
  destruct (PyStr.endswith (PyStr.strip cmd) ";") eqn:E.
  { apply PyStrFacts.endswith_In in E. tauto. }
  rewrite PyStrFacts.split_no_sep by assumption. simpl.
  rewrite PyStrFacts.strip_idemp. apply PyStrFacts.replace_self.
Qed.
(** * The stated properties *)

(** ** Setup extraction *)

(** C1 (as it holds on the code).  Take a command that, once surrounding
    white space is stripped, ends in at most one semicolon, and whose final
    clause [p] is not blank and does not occur in the clauses [pre] before
    it.  Then [extract_setup] returns the stripped command without the final
    clause and without the closing semicolon: the earlier clauses followed by
    the white space that surrounded the final clause.  A command that
    contains no semicolon at all has the empty setup. *)
Theorem extract_setup_final_clause_removed :
  (forall cmd pre ws1 p ws2 tail,
      decomposes cmd pre ws1 p ws2 tail ->
      PyStr.contains pre p = false ->
      extract_setup cmd = pre ++ ws1 ++ ws2) /\
  (forall cmd, ~ In ";"%char cmd -> extract_setup cmd = []).
Proof.
  split.
  - intros cmd pre ws1 p ws2 tail Hd Hc.
    rewrite (extract_setup_decomposed _ _ _ _ _ _ Hd).
    destruct Hd as (_ & _ & _ & _ & _ & Hp & _).
    now rewrite PyStrFacts.replace_absent.
  - exact extract_setup_no_semicolon.
Qed.

Lemma extract_setup_final_clause_removed_witness :
  extract_setup "source env.sh; module load x; run.exe --opt ;"
  = "source env.sh; module load x;" ++ " " ++ " "
  /\ extract_setup "run.exe --opt" = [].
Proof.
  split.
  - apply (proj1 extract_setup_final_clause_removed
             "source env.sh; module load x; run.exe --opt ;"
             "source env.sh; module load x;" " " "run.exe --opt" " " ";").
    + repeat split; try reflexivity; auto; try discriminate.
      vm_compute. intuition discriminate.
    + reflexivity.
  - apply (proj2 extract_setup_final_clause_removed).
    vm_compute. intuition discriminate.
Defined.

(** C1 as stated fails on the code in two ways: with two closing semicolons
    the final clause is kept and one semicolon remains, and a final clause
    that also occurs earlier is deleted there as well. *)
Lemma extract_setup_trailing_semicolons_counterexample :
  extract_setup "setup.sh;run.exe;;" = "setup.sh;run.exe;" /\
  extract_setup "setup.sh;run.exe;;" <> "setup.sh;" /\
  extract_setup "x;x;" = ";" /\
  extract_setup "x;x;" <> "x;".
Proof. repeat split; (reflexivity || discriminate). Qed.

(** C9.  The final clause is removed by replacing every occurrence of it in
    the whole command.  When the (non-blank) final clause [p] also occurs in
    the clauses [pre] before it, the setup returned is [pre] with all those
    occurrences deleted (Python's [replace], left to right, not overlapping),
    followed by the white space around the final clause; it is shorter than,
    and so different from, the command up to the final clause. *)
Theorem extract_setup_deletes_earlier_occurrences :
  forall cmd pre ws1 p ws2 tail,
    decomposes cmd pre ws1 p ws2 tail ->
    PyStr.contains pre p = true ->
    extract_setup cmd = PyStr.replace pre p [] ++ ws1 ++ ws2 /\
    length (PyStr.replace pre p []) + length p <= length pre /\
    extract_setup cmd <> pre ++ ws1 ++ ws2.
Proof.
  intros cmd pre ws1 p ws2 tail Hd Hc.
  pose proof (extract_setup_decomposed _ _ _ _ _ _ Hd) as He.
  destruct Hd as (_ & _ & _ & _ & _ & Hp & _).
  pose proof (PyStrFacts.replace_shrinks pre p Hp Hc) as Hlen.
  repeat split; [assumption..|].
  rewrite He. intros Heq. apply app_inv_tail in Heq.
  rewrite Heq in Hlen. destruct p; [congruence|]. simpl in Hlen. lia.
Qed.

Lemma extract_setup_deletes_earlier_occurrences_witness :
  extract_setup "echo run; run" = "echo ; " /\
  extract_setup "echo run; run" <> "echo run; ".
Proof.
  destruct (extract_setup_deletes_earlier_occurrences
              "echo run; run" "echo run;" " " "run" "" "") as (H1 & _ & H3).
  - repeat split; try reflexivity; auto; try discriminate.
    vm_compute. intuition discriminate.
  - reflexivity.
  - split; [exact H1|exact H3].
Defined.

(** ** Supervision of the payload *)

(** C2 (as it holds on the code).  The flag gets set at an instant [T] and
    stays set, [wait_graceful] is supervising a payload that is found running
    at every poll made less than 1.1 seconds after [T], and [os.getpgid] and
    [os.killpg] succeed.  Then SIGTERM is sent to the whole process group of
    the payload at the first check of the flag at or after [T]: that is the
    first check of all, a tenth of a second after [wait_graceful] was
    entered, when [T] has passed by then, and otherwise less than 1.1 seconds
    after [T] (two checks are a second apart within a round, and 1.1 seconds
    apart across the poll between two rounds).  Exactly three seconds after
    that [proc.kill()] sends SIGKILL to the payload process itself, and to no
    other member of its group; [wait_graceful] returns [None], and the
    payload process is no longer alive.  Times are those of the clock of the
    executor, on which only sleeping takes time. *)
Theorem wait_graceful_cancellation :
  forall w pid pgid (T : Q) cycles s,
    set_from w T ->
    (forall t, (at_time t < T + 11)%Q -> proc_poll w pid t = None) ->
    (forall t, os_getpgid w t pid = Some pgid) ->
    (forall t, os_killpg w t pgid SIGTERM = true) ->
    0 < cycles ->
    (T + 11 <= at_time (clock s + 601 * cycles))%Q ->
    exists tc pre,
      (T <= at_time tc)%Q /\
      ((T <= at_time (clock s + 1))%Q /\ tc = clock s + 1 \/
       (at_time (clock s + 1) < T)%Q /\ (at_time tc < T + 11)%Q) /\
      Forall is_sleep pre /\ clock s + slept pre = tc /\
      let signals := [EvKillpg pgid SIGTERM; EvSleep 30; EvKill pid] in
      wait_graceful w cycles pid s
      = (Return None, advanced (pre ++ signals) (slept pre + 30) s) /\
      forall procs, Posix.alive (Posix.after (pre ++ signals) procs) pid = false.
Proof.
  intros w pid pgid T cycles s Hset Hpoll Hpg Hkill Hpos Hfuel.
  apply (instant_le _ 11 T) in Hfuel.
  assert (Hflag : forall t, graceful_stop_is_set w t = true <-> first_time T <= t).
  { intros t. rewrite (Hset t). apply first_time_spec. }
  assert (Hpoll' : forall t, clock s + 601 <= t -> t <= first_time T + 10 ->
                             proc_poll w pid t = None).
  { intros t H1 H2. apply Hpoll, (instant_lt t 11 T).
    unfold first_time in H2. lia. }
  destruct (wait_graceful_loop_cancelled w pid (first_time T) pgid (clock s)
              Hflag Hpoll' Hpg Hkill cycles s (Nat.le_refl _) Hpos)
    as (tc & pre & H1 & H2 & H3 & H4 & H5 & H6 & H7).
  { unfold first_time. lia. }
  exists tc, pre. split; [now apply first_time_spec|]. split; [|split; [|split]].
  - destruct (le_lt_dec (first_time T) (clock s + 1)) as [Hle|Hlt].
    + left. split; [now apply first_time_spec|auto].
    + right. unfold first_time in *. split.
      * apply lt_ceiling. lia.
      * apply (instant_lt tc 11 T). lia.
  - exact H5.
  - lia.
  - cbv zeta. split.
    + unfold wait_graceful. rewrite H7. now rewrite H6.
    + intros procs.
      replace (pre ++ [EvKillpg pgid SIGTERM; EvSleep 30; EvKill pid])
        with ((pre ++ [EvKillpg pgid SIGTERM; EvSleep 30]) ++ [EvKill pid])
        by now rewrite <- app_assoc.
      apply PosixFacts.alive_after_kill.
Qed.

Lemma wait_graceful_cancellation_witness :
  exists tc pre,
    (591.5 <= at_time tc)%Q /\
    ((591.5 <= at_time (0 + 1))%Q /\ tc = 0 + 1 \/
     (at_time (0 + 1) < 591.5)%Q /\ (at_time tc < 591.5 + 11)%Q) /\
    Forall is_sleep pre /\ 0 + slept pre = tc /\
    wait_graceful Scenario.late_cancelled_world 2 100 Scenario.exec0
    = (Return None,
       advanced (pre ++ [EvKillpg 100 SIGTERM; EvSleep 30; EvKill 100])
                (slept pre + 30) Scenario.exec0) /\
    forall procs,
      Posix.alive
        (Posix.after (pre ++ [EvKillpg 100 SIGTERM; EvSleep 30; EvKill 100]) procs)
        100 = false.
Proof.
  apply (wait_graceful_cancellation Scenario.late_cancelled_world 100 100 591.5 2
           Scenario.exec0).
  - exact (WorkflowFacts.interrupted_at_spec 591.5).
  - reflexivity.
  - reflexivity.
  - reflexivity.
  - lia.
  - vm_compute. discriminate.
Defined.

(** The flag is set 59.15 seconds after [wait_graceful] was entered, just
    after the sixtieth check of the first round: it is seen at the first
    check of the second round, 60.2 seconds after entry, which is 1.05
    seconds later; the process is killed 63.2 seconds after entry. *)
Example wait_graceful_late_check :
  let r := wait_graceful Scenario.late_cancelled_world 2 100 Scenario.exec0 in
  r.1 = Return None /\
  trace r.2 = quiet_cycle ++ [EvSleep 1; EvKillpg 100 SIGTERM; EvSleep 30; EvKill 100] /\
  slept quiet_cycle + 1 = 602 /\
  clock r.2 = 632.
Proof. vm_compute. repeat split. Qed.

(** C2 as stated fails on the code: only the payload process gets SIGKILL.
    A member of its group that survives SIGTERM is alive when
    [wait_graceful] has returned. *)
Lemma wait_graceful_group_not_killed_counterexample :
  let leader := {| Posix.p_pid := 100; Posix.p_pgid := 100;
                   Posix.p_alive := true; Posix.p_survives := fun _ => false |} in
  let child := {| Posix.p_pid := 101; Posix.p_pgid := 100;
                  Posix.p_alive := true;
                  Posix.p_survives := fun sig => (sig =? SIGTERM)%Z |} in
  let r := wait_graceful Scenario.cancelled_world 1 100 Scenario.exec0 in
  r.1 = Return None /\
  List.filter (fun ev => match ev with EvSleep _ => false | _ => true end)
              (trace r.2)
  = [EvKillpg 100 SIGTERM; EvKill 100] /\
  Posix.alive (Posix.after (trace r.2) [leader; child]) 100 = false /\
  Posix.alive (Posix.after (trace r.2) [leader; child]) 101 = true.
Proof. vm_compute. repeat split. Qed.

(** C3 (as it holds on the code).  [wait_graceful] polls the payload once
    per round, after sixty checks of the flag (every 60.1 s).  If the flag is
    clear up to the poll that first sees that the payload has ended, then no
    signal is sent (nothing is done but sleeping) and the value returned is
    the exit code of the payload. *)
Theorem wait_graceful_natural_completion :
  forall w pid c k cycles s,
    k < cycles ->
    (forall t, t <= clock s + 601 * S k -> graceful_stop_is_set w t = false) ->
    (forall j, j < k -> proc_poll w pid (clock s + 601 * S j) = None) ->
    proc_poll w pid (clock s + 601 * S k) = Some c ->
    let tr := concat (repeat quiet_cycle (S k)) in
    wait_graceful w cycles pid s = (Return (Some c), advanced tr (601 * S k) s) /\
    Forall is_sleep tr /\
    Forall (fun ev => ~ is_signal ev) tr.
Proof.
  intros w pid c k cycles s Hk Hflag Hnone Hsome tr.
  assert (Hsl : Forall is_sleep tr).
  { unfold tr. apply Forall_concat. apply Forall_forall.
    intros x Hx. apply list_elem_of_In, repeat_spec in Hx as ->.
    constructor; [exact I|apply Forall_is_sleep_repeat]. }
  repeat split.
  - now apply wait_graceful_loop_natural.
  - exact Hsl.
  - eapply Forall_impl; [exact Hsl|]. intros ev Hev. now destruct ev.
Qed.

Lemma wait_graceful_natural_completion_witness :
  wait_graceful Scenario.undisturbed_world 1 100 Scenario.exec0
  = (Return (Some 0%Z), advanced quiet_cycle 601 Scenario.exec0).
Proof.
  destruct (wait_graceful_natural_completion
              Scenario.undisturbed_world 100 0%Z 0 1 Scenario.exec0) as (H & _ & _).
  - lia.
  - intros t _. apply WorkflowFacts.never_interrupted_spec.
  - intros j Hj. lia.
  - reflexivity.
  - exact H.
Defined.

(** C3 as stated fails on the code: the payload has ended with code 0 after
    half a second, the flag is clear until it is set after ten seconds, before
    the first poll; SIGTERM and SIGKILL are sent and [None] is returned in
    place of the exit code. *)
Lemma wait_graceful_exit_before_flag_counterexample :
  let w := Scenario.make_world (inl ("setup.sh; payload.exe" : str))
             Scenario.with_payload_only (fun _ _ => 0%Z) Scenario.starts_100
             (Scenario.exits_at 5 0) (Scenario.interrupted_at 100) in
  let r := wait_graceful w 1 100 Scenario.exec0 in
  proc_poll w 100 5 = Some 0%Z /\
  (forall t, t < 100 -> graceful_stop_is_set w t = false) /\
  r.1 = Return None /\
  List.filter (fun ev => match ev with EvSleep _ => false | _ => true end)
              (trace r.2)
  = [EvKillpg 100 SIGTERM; EvKill 100].
Proof.
  split; [reflexivity|]. split.
  - intros t Ht. simpl.
    destruct (Scenario.interrupted_at 100 t) eqn:E; [|reflexivity].
    apply (WorkflowFacts.interrupted_at_time 100) in E. lia.
  - vm_compute. split; reflexivity.
Qed.

(** ** The cancellation flag *)

(** C8.  Let [run] have installed the handler: the [signal] module gives the
    name [SIGINT] the number [n], and [interrupt] is installed for [n].
    Whatever signals arrive, whichever stage loop makes a turn and whenever
    the supervisor of a payload checks the flag: (1) on the signal it is
    installed for, the handler finds the name of the signal, returns and
    leaves the flag set; (2) on any signal at all the handler leaves a flag
    that is set as it is (it sets the flag or, finding no name, raises before
    it reaches it); (3) an action that changes the flag is the arrival of the
    signal [n], and leaves the flag set; (4) a flag that is set stays set in
    every later state; (5) once the flag is set, a further action (a
    redundant signal included) changes nothing; (6) the flag is set exactly
    when the signal [n] has arrived; (7) seen over time the flag never goes
    back from set to clear; and (8) before [run] has installed the handler no
    action sets the flag. *)
Theorem cancellation_flag_monotonic :
  forall sm n,
    Workflow.signal_SIGINT sm = Some n ->
    (forall args,
        Workflow.interrupt sm n args
        = (Return tt,
           {| Workflow.graceful_stop := {| Workflow.flag := true |} |})) /\
    (forall signum args,
        Workflow.Event_is_set (Workflow.graceful_stop args) = true ->
        (Workflow.interrupt sm signum args).2 = args) /\
    (forall l a,
        Workflow.is_set (Workflow.steps (Workflow.started sm) (l ++ [a]))
        <> Workflow.is_set (Workflow.steps (Workflow.started sm) l) ->
        a = Workflow.Signal n /\
        Workflow.is_set (Workflow.steps (Workflow.started sm) (l ++ [a])) = true) /\
    (forall l l',
        Workflow.is_set (Workflow.steps (Workflow.started sm) l) = true ->
        Workflow.is_set (Workflow.steps (Workflow.started sm) (l ++ l')) = true) /\
    (forall l a,
        Workflow.is_set (Workflow.steps (Workflow.started sm) l) = true ->
        Workflow.steps (Workflow.started sm) (l ++ [a])
        = Workflow.steps (Workflow.started sm) l) /\
    (forall l,
        Workflow.is_set (Workflow.steps (Workflow.started sm) l) = true
        <-> In (Workflow.Signal n) l) /\
    (forall arrivals t t',
        t <= t' ->
        Workflow.is_set_at sm arrivals t = true ->
        Workflow.is_set_at sm arrivals t' = true) /\
    (forall l, Workflow.is_set (Workflow.steps Workflow.fresh l) = false).
Proof.
  intros sm n Hn.
  assert (Hreach : forall l,
             Workflow.only_interrupt sm (Workflow.steps (Workflow.started sm) l)).
  { intros l. apply WorkflowFacts.only_interrupt_steps,
      WorkflowFacts.started_only_interrupt. }
  split; [intros args; now apply WorkflowFacts.interrupt_installed|].
  split; [exact (WorkflowFacts.interrupt_keeps_set sm)|].
  split; [|split; [|split; [|split; [|split]]]].
  - intros l a Hne. rewrite WorkflowFacts.steps_snoc in *.
    destruct (WorkflowFacts.step_writes sm _ _ (Hreach l) Hne) as (m & -> & Hm & Hs).
    split; [congruence|exact Hs].
  - intros l l' Hs. rewrite WorkflowFacts.steps_app.
    now apply (WorkflowFacts.steps_keep_set sm).
  - intros l a Hs. rewrite WorkflowFacts.steps_snoc.
    now apply (WorkflowFacts.step_set_noop sm).
  - intros l. rewrite (WorkflowFacts.is_set_steps_started sm n l Hn).
    rewrite existsb_exists. split.
    + intros (a & Hin & Ha). apply bool_decide_eq_true in Ha. now subst a.
    + intros Hin. exists (Workflow.Signal n). split; [exact Hin|].
      now apply bool_decide_eq_true.
  - exact (WorkflowFacts.is_set_at_monotone sm).
  - exact WorkflowFacts.is_set_steps_fresh.
Qed.

Lemma cancellation_flag_monotonic_witness :
  Workflow.interrupt Scenario.signal_names SIGINT
    {| Workflow.graceful_stop := {| Workflow.flag := false |} |}
  = (Return tt, {| Workflow.graceful_stop := {| Workflow.flag := true |} |}) /\
  Workflow.is_set
    (Workflow.steps (Workflow.started Scenario.signal_names)
       ([Workflow.Signal SIGINT]
          ++ [Workflow.Turn Workflow.MonitorControl; Workflow.Signal SIGTERM;
              Workflow.FlagCheck; Workflow.Signal SIGINT]))
  = true /\
  Workflow.steps (Workflow.started Scenario.signal_names)
    ([Workflow.Signal SIGINT] ++ [Workflow.Signal SIGINT])
  = Workflow.steps (Workflow.started Scenario.signal_names) [Workflow.Signal SIGINT] /\
  Workflow.is_set_at Scenario.signal_names [(24.5%Q, SIGINT); (40%Q, SIGINT)] 60 = true.
Proof.
  destruct (cancellation_flag_monotonic Scenario.signal_names SIGINT)
    as (H1 & _ & _ & H4 & H5 & _ & H7 & _).
  - reflexivity.
  - split; [apply H1|]. split; [|split].
    + apply H4. reflexivity.
    + apply H5. reflexivity.
    + apply (H7 _ 30 60); [lia|reflexivity].
Defined.

(** A signal whose number has no name in the [signal] module: the handler
    raises while it looks up the name and the flag stays clear.  (The
    handler is not installed for such a signal.) *)
Example interrupt_without_name :
  Workflow.interrupt Scenario.signal_names 64
    {| Workflow.graceful_stop := {| Workflow.flag := false |} |}
  = (Raise IndexError, {| Workflow.graceful_stop := {| Workflow.flag := false |} |}).
Proof. reflexivity. Qed.

(** ** The loop of [run] *)

(** C4.  Take any round of [run] (the round [it], reached after [n] earlier
    rounds) in which the preprocess step returns the sentinel exit code 160.
    The round ends the loop with exit code 0, so [run] returns 0 (given the
    [n+1] rounds it takes); the error list of the job is after the round what
    it was before it; and nothing done in the round is a launch of the
    payload. *)
Theorem hpo_sentinel_ends_run :
  forall w cycles s0 n it cmd s s1,
    round_of_run w cycles s0 n it cmd s ->
    run_preprocess w it s = (Return 160%Z, s1) ->
    run_round w cycles it cmd s = (Return (Break 0%Z), s1) /\
    (forall rounds, n < rounds -> run w rounds cycles s0 = (Return 0%Z, s1)) /\
    piloterrorcodes (job s1) = piloterrorcodes (job s) /\
    piloterrordiags (job s1) = piloterrordiags (job s) /\
    exists tr, trace s1 = trace s ++ tr /\ Forall not_launch tr.
Proof.
  intros w cycles s0 n it cmd s s1 Hround Hpre.
  pose proof (run_round_sentinel w cycles it cmd s s1 Hpre) as Hbreak.
  destruct (run_preprocess_sentinel_errors w it s s1 Hpre) as [Hc Hd].
  repeat split; try assumption.
  - intros rounds Hn.
    replace rounds with (n + S (rounds - n - 1)) by lia.
    rewrite (run_round_of_run _ _ _ _ _ _ _ Hround).
    now apply run_loop_break.
  - pose proof (run_preprocess_no_launch w it s) as H.
    now rewrite Hpre in H.
Qed.

Lemma hpo_sentinel_ends_run_witness :
  exists s1,
    run Scenario.hpo_world 2 1 Scenario.hpo_exec = (Return 0%Z, s1) /\
    piloterrorcodes (job s1) = [POSTPROCESSFAILURE].
Proof.
  pose (r0 := run_prologue Scenario.hpo_world Scenario.hpo_exec).
  pose (cmd0 := match r0.1 with Return c => c | _ => [] end).
  pose (r1 := run_round Scenario.hpo_world 1 1 cmd0 r0.2).
  pose (cmd1 := match r1.1 with Return (Again c) => c | _ => [] end).
  pose (r2 := run_preprocess Scenario.hpo_world 2 r1.2).
  destruct (hpo_sentinel_ends_run Scenario.hpo_world 1 Scenario.hpo_exec
              1 2 cmd1 r1.2 r2.2) as (_ & Hrun & Hc & _).
  - exists cmd0, r0.2. split; [vm_compute; reflexivity|].
    apply (rounds_on_S _ _ 0 1 cmd0 r0.2 cmd1 r1.2); [vm_compute; reflexivity|].
    constructor.
  - vm_compute. reflexivity.
  - exists r2.2. split; [apply Hrun; lia|].
    rewrite Hc. vm_compute. reflexivity.
Defined.

(** C7 (as it holds on the code).  An error is recorded in one way only:
    the two error lists of the job are assigned what
    [errors.add_error_code], called with the code alone, returns.  So after
    [run], after a round of its loop, after the preprocess step and after a
    utility command, however they end, the lists of the job are either what
    they were or what the [errors] object of the module holds; and when they
    are what that object holds to begin with (as when both are empty), they
    still are afterwards and begin with what they held before: nothing is
    overwritten or dropped, and the entries stand in the order in which they
    were recorded.  A launch that fails records nothing: [run_payload] leaves
    the lists of the job and the [errors] object as they are. *)
Theorem error_list_append_only :
  forall w,
    (forall rounds cycles, append_only (run w rounds cycles)) /\
    (forall cycles it cmd, append_only (run_round w cycles it cmd)) /\
    (forall it, append_only (run_preprocess w it)) /\
    (forall it cmd label, append_only (execute_utility_command w it cmd label)) /\
    (forall it cmd s,
        job_errors (run_payload w it cmd s).2 = job_errors s /\
        errors (run_payload w it cmd s).2 = errors s).
Proof.
  intros w. split; [|split; [|split; [|split]]].
  - intros rounds cycles. apply append_only_of, run_errors.
  - intros cycles it cmd. apply append_only_of, run_round_errors.
  - intros it. apply append_only_of. unfold_methods. preserves_with prim_errors.
  - intros it cmd label. apply append_only_of.
    unfold_methods. preserves_with prim_errors.
  - intros it cmd s. split.
    + unfold job_errors. f_equal.
      * apply run_payload_keeps_errorcodes.
      * apply run_payload_keeps_errordiags.
    + apply run_payload_keeps_held.
Qed.

Lemma error_list_append_only_witness :
  let s := Scenario.recorded_error_exec in
  let s' := (run Scenario.failing_preprocess_world 1 1 s).2 in
  in_step s /\
  errors_extend s s' /\
  piloterrorcodes (job s') = [ErrorCode 1099; PREPROCESSFAILURE; PREPROCESSFAILURE].
Proof.
  cbv zeta. split; [reflexivity|]. split.
  - apply (proj1 (error_list_append_only Scenario.failing_preprocess_world) 1 1
             Scenario.recorded_error_exec).
    reflexivity.
  - vm_compute. reflexivity.
Defined.

(** C7 as stated fails on the code.  A job comes with the error 1099 in its
    list and its preprocess command fails: the lists of the job are
    assigned what [add_error_code] returns for the code alone, so the entry
    1099 is gone, and the one failure stands there twice (recorded by
    [execute_utility_command] and again by [run_preprocess]).  And when the
    launch of the payload fails, which is one failure, nothing is recorded
    ([run] even returns 0). *)
Lemma error_list_overwritten_counterexample :
  let s := Scenario.foreign_error_exec in
  let r := run Scenario.failing_preprocess_world 1 1 s in
  let r' := run Scenario.launch_failure_world 1 1 Scenario.exec0 in
  piloterrorcodes (job s) = [ErrorCode 1099] /\
  r.1 = Return 3%Z /\
  piloterrorcodes (job r.2) = [PREPROCESSFAILURE; PREPROCESSFAILURE] /\
  ~ errors_extend s r.2 /\
  r'.1 = Return 0%Z /\
  List.filter (fun ev => match ev with EvLaunch _ | EvLog _ => true | _ => false end)
              (trace r'.2)
  = [EvLaunch "setup.sh; payload.exe"; EvLog ERROR] /\
  piloterrorcodes (job r'.2) = [] /\
  piloterrordiags (job r'.2) = [].
Proof.
  cbv zeta. split; [reflexivity|]. split; [vm_compute; reflexivity|].
  split; [vm_compute; reflexivity|]. split.
  - intros [[k Hk] _]. vm_compute in Hk. discriminate Hk.
  - vm_compute. repeat split.
Qed.

(** ** Stopping the utilities *)

(** C5 (as it holds on the code).  Let the hook called after stopping a
    utility leave the utility table alone.  Then [stop_utilities] returns
    without raising, whatever the table holds; for every entry with a process
    handle it sends the designated signal of the utility to the process group
    of the handle, or logs a warning when that fails, and then calls the hook;
    entries without a process handle are passed over, with no signal and no
    hook; and the utility table is on return what it was: [stop_utilities]
    removes no entry. *)
Theorem stop_utilities_keeps_table :
  forall w s,
    (forall utcmd j, user_post_utility_command_action w utcmd j = utilities j) ->
    let evs := stop_events w (clock s) (map_to_list (utilities (job s))) in
    stop_utilities w s = (Return tt, with_events evs s) /\
    utilities (job (stop_utilities w s).2) = utilities (job s) /\
    (forall utcmd u,
        utilities (job s) !! utcmd = Some u -> truthy (ut_proc u) = true ->
        In (signal_attempt w (clock s) (ut_proc u)
              (user_get_utility_command_kill_signal w utcmd)) evs /\
        In (EvPostAction utcmd) evs) /\
    (forall utcmd u,
        utilities (job s) !! utcmd = Some u -> truthy (ut_proc u) = false ->
        ~ In (EvPostAction utcmd) evs) /\
    (forall t pid pgid sig,
        os_getpgid w t pid = Some pgid -> os_killpg w t pgid sig = true ->
        signal_attempt w t (Popen pid) sig = EvKillpg pgid sig).
Proof.
  intros w s Hhook evs.
  pose proof (stop_utilities_keeps w Hhook s) as Hstop. fold evs in Hstop.
  split; [exact Hstop|]. split; [now rewrite Hstop|].
  split; [|split].
  - intros utcmd u Hu Ht. unfold evs. rewrite !in_stop_events.
    assert (In (utcmd, u) (map_to_list (utilities (job s)))) as Hin.
    { apply list_elem_of_In. now apply elem_of_map_to_list. }
    split; exists utcmd, u; auto.
  - intros utcmd u Hu Ht Hin. unfold evs in Hin.
    apply in_stop_events in Hin as (k & v & Hkv & Hv & [He|He]).
    + symmetry in He. now apply signal_attempt_not_post in He.
    + injection He as <-.
      apply list_elem_of_In, elem_of_map_to_list in Hkv. congruence.
  - intros t pid pgid sig Hpg Hkill. unfold signal_attempt. now rewrite Hpg, Hkill.
Qed.

Lemma stop_utilities_keeps_table_witness :
  stop_utilities Scenario.undisturbed_world Scenario.monitored_exec
  = (Return tt,
     with_events
       (stop_events Scenario.undisturbed_world 0
          (map_to_list (utilities (job Scenario.monitored_exec))))
       Scenario.monitored_exec) /\
  In (EvKillpg 200 SIGTERM)
     (stop_events Scenario.undisturbed_world 0
        (map_to_list (utilities (job Scenario.monitored_exec)))) /\
  ~ In (EvPostAction "NetworkMonitor")
       (stop_events Scenario.undisturbed_world 0
          (map_to_list (utilities (job Scenario.monitored_exec)))).
Proof.
  assert (Hm : utilities (job Scenario.monitored_exec) !! ("MemoryMonitor" : str)
               = Some Scenario.memory_monitor) by (vm_compute; reflexivity).
  assert (Hn : utilities (job Scenario.monitored_exec) !! ("NetworkMonitor" : str)
               = Some Scenario.network_monitor) by (vm_compute; reflexivity).
  destruct (stop_utilities_keeps_table
              Scenario.undisturbed_world Scenario.monitored_exec
              (fun _ _ => eq_refl))
    as (H1 & _ & H3 & H4 & _).
  split; [exact H1|]. split.
  - exact (proj1 (H3 _ _ Hm eq_refl)).
  - exact (H4 _ _ Hn eq_refl).
Defined.

(** C5 as stated fails on the code: after [stop_utilities] the table still
    holds both utilities, and the one without a process object was neither
    signalled nor handed to the hook. *)
Lemma stop_utilities_table_not_cleared_counterexample :
  let r := stop_utilities Scenario.undisturbed_world Scenario.monitored_exec in
  r.1 = Return tt /\
  utilities (job r.2) !! ("MemoryMonitor" : str) = Some Scenario.memory_monitor /\
  utilities (job r.2) !! ("NetworkMonitor" : str) = Some Scenario.network_monitor /\
  size (utilities (job r.2)) = 2 /\
  trace r.2 = [EvKillpg 200 SIGTERM; EvPostAction "MemoryMonitor"].
Proof.
  cbv zeta. split; [|split; [|split; [|split]]]; vm_compute; reflexivity.
Qed.

(** ** A payload command that cannot be resolved *)

(** C6 (what the code does where the claim asks for a stop).  When the
    command builder reports a structured error, [get_payload_command]
    assigns to the error lists of the job what [errors.add_error_code]
    returns for the code and returns the empty command.  [run] does not look
    at the command: it derives the empty setup from it and enters its loop
    with it; and when the preprocess step of the first round succeeds (or is
    absent) and there is a utility command to go with the payload,
    [run_payload] hands the command to [execute]: the empty command, or, if
    the job parameters were empty and the preprocess step has set them, those
    job parameters. *)
Theorem unresolved_command_is_launched :
  forall w s code,
    user_get_payload_command w (job s) = inr (PilotException code) ->
    (exists s1,
        get_payload_command w s = (Return [], s1) /\
        job_errors s1 = (add_error_code code (errors s)).1) /\
    exists s2,
      run_prologue w s = (Return [], s2) /\
      setup (job s2) = [] /\
      job_errors s2 = (add_error_code code (errors s)).1 /\
      (forall rounds cycles,
          run w rounds cycles s = run_loop w rounds cycles 1 [] s2) /\
      forall cycles s3 d jobparams',
        run_preprocess w 1 s2 = (Return 0%Z, s3) ->
        user_get_utility_commands w 1 UTILITY_WITH_PAYLOAD (job s3)
        = inl (Some d, jobparams') ->
        exists tr,
          trace (run_round w cycles 1 [] s2).2
          = trace s3
              ++ [EvTiming PILOT_PRE_PAYLOAD;
                  EvLaunch (match jobparams (job s2) with
                            | [] => jobparams (job s3)
                            | _ => []
                            end)]
              ++ tr.
Proof.
  intros w s code H. split.
  - destruct (get_payload_command_error w s code H) as (s1 & H1 & H2 & _).
    exists s1. auto.
  - destruct (get_payload_command_error w (with_event (EvTiming PILOT_PRE_SETUP) s)
                code H) as (s1 & H1 & H2 & _).
    assert (Hpro : run_prologue w s
                   = (Return [],
                      with_event (EvTiming PILOT_POST_SETUP)
                        (with_job (set_setup (extract_setup [])) s1))).
    { unfold run_prologue, pre_setup, add_to_pilot_timing.
      unfold mbind at 1, M_bind at 1, bind at 1, emit at 1, modify at 1.
      cbn beta iota zeta.
      now rewrite (bind_return _ _ _ _ _ H1). }
    eexists. split; [exact Hpro|]. split; [reflexivity|]. split; [exact H2|].
    split.
    + intros rounds cycles.
      now rewrite run_prologue_loop, (bind_return _ _ _ _ _ Hpro).
    + intros cycles s3 d jobparams' Hpre Hd.
      rewrite <- updated_command_empty.
      now apply (run_round_launches w cycles 1 [] _ s3 d jobparams').
Qed.

Lemma unresolved_command_is_launched_witness :
  exists s2,
    run_prologue Scenario.unresolved_world Scenario.exec0 = (Return [], s2) /\
    piloterrorcodes (job s2) = [ErrorCode 1305] /\
    exists tr,
      trace (run_round Scenario.unresolved_world 1 1 [] s2).2
      = trace s2 ++ [EvTiming PILOT_PRE_PAYLOAD; EvLaunch []] ++ tr.
Proof.
  destruct (unresolved_command_is_launched
              Scenario.unresolved_world Scenario.exec0 (ErrorCode 1305))
    as (_ & s2 & H1 & _ & H3 & _ & H5).
  - reflexivity.
  - assert (Hs2 : s2 = (run_prologue Scenario.unresolved_world Scenario.exec0).2)
      by now rewrite H1.
    exists s2. split; [exact H1|].
    split; [exact (f_equal fst H3)|].
    assert (Hpre : run_preprocess Scenario.unresolved_world 1 s2 = (Return 0%Z, s2))
      by (rewrite Hs2; vm_compute; reflexivity).
    assert (Hd : user_get_utility_commands Scenario.unresolved_world 1
                   UTILITY_WITH_PAYLOAD (job s2)
                 = inl (Some {| command := "monitor"; args := "--fast" |}, []))
      by (rewrite Hs2; reflexivity).
    destruct (H5 1 s2 _ _ Hpre Hd) as (tr & Htr).
    exists tr. rewrite Htr. do 3 f_equal.
    rewrite Hs2. reflexivity.
Defined.

(** The whole of [run] for a job whose command builder reports the
    structured error 1305, with no preprocess command and a utility command
    to go with the payload: the error is recorded, the empty command is
    handed to [execute], the process started is supervised, and [run]
    returns 0 with the job marked finished. *)
Example unresolved_command_run :
  let r := run Scenario.unresolved_world 1 1 Scenario.exec0 in
  r.1 = Return 0%Z /\
  piloterrorcodes (job r.2) = [ErrorCode 1305] /\
  List.filter (fun ev => match ev with EvLaunch _ | EvLog _ => true | _ => false end)
              (trace r.2)
  = [EvLog ERROR; EvLog FATAL; EvLaunch []] /\
  state (job r.2) = "finished".
Proof. vm_compute. repeat split. Qed.

(** ** The exit code of the postprocess *)



(** The first way for the round to end: the job has two running utilities
    and the hook called after stopping one empties the table, so the second
    key is no longer there when its turn comes.  The postprocess has run,
    and [run] raises [KeyError]. *)
Example postprocess_then_key_error :
  let r := run Scenario.forgetful_world 1 1 Scenario.two_monitors_exec in
  r.1 = Raise KeyError /\
  List.filter (fun ev => match ev with
                         | EvExecute _ _ | EvPostAction _ => true
                         | _ => false
                         end)
              (trace r.2)
  = [EvExecute "preprocess" "setup.sh; pre.sh -a";
     EvExecute "postprocess" "setup.sh; post.sh -b";
     EvPostAction "MemoryMonitor"] /\
  state (job r.2) = "finished".
Proof.
  cbv zeta. split; [|split]; vm_compute; reflexivity.
Qed.

(** * Further properties of the executor *)

(** ** Rounds that end early *)

(** X1.  Without a utility command to go with the payload,
    [utility_with_payload] returns a variable that was never assigned:
    [run_payload] raises [UnboundLocalError] after the pre-payload timing and
    before anything is launched, and so does a round of [run] whose
    preprocess step has succeeded. *)
Theorem run_payload_without_utility_raises :
  forall w it cmd s jobparams',
    user_get_utility_commands w it UTILITY_WITH_PAYLOAD (job s) = inl (None, jobparams') ->
    let s' := with_job (set_jobparams jobparams')
                (with_event (EvTiming PILOT_PRE_PAYLOAD) s) in
    run_payload w it cmd s = (Raise UnboundLocalError, s') /\
    forall cycles cmd0 s0,
      run_preprocess w it s0 = (Return 0%Z, s) ->
      run_round w cycles it cmd0 s0 = (Raise UnboundLocalError, s').
Proof.
  intros w it cmd s jobparams' H s'.
  assert (Hrun : forall c, run_payload w it c s = (Raise UnboundLocalError, s')).
  { intros c. unfold run_payload, pre_payload, add_to_pilot_timing,
      utility_with_payload, get_utility_commands.
    unfold mbind, M_bind, bind, emit, modify_job, modify, get_job. simpl.
    now rewrite H. }
  split; [apply Hrun|].
  intros cycles cmd0 s0 Hpre. unfold run_round.
  unfold mbind at 1, M_bind at 1, bind at 1, get_job at 1. cbn beta iota zeta.
  rewrite (bind_return _ _ _ _ _ Hpre).
  unfold mbind at 1, M_bind at 1, bind at 1, get_job at 1. cbn beta iota zeta.
  change (nonzero 0) with false. cbn beta iota.
  now rewrite (bind_raise _ _ _ _ _ (Hrun _)).
Qed.

Lemma run_payload_without_utility_raises_witness :
  (run Scenario.plain_world 1 1 Scenario.exec0).1 = Raise UnboundLocalError /\
  run_payload Scenario.plain_world 1 "setup.sh; payload.exe" Scenario.exec0
  = (Raise UnboundLocalError,
     with_job (set_jobparams [])
       (with_event (EvTiming PILOT_PRE_PAYLOAD) Scenario.exec0)).
Proof.
  split; [vm_compute; reflexivity|].
  apply (proj1 (run_payload_without_utility_raises Scenario.plain_world 1
                  "setup.sh; payload.exe" Scenario.exec0 [] eq_refl)).
Defined.

(** X2.  Without a command to run before the payload, [run_preprocess]
    returns 0 and does nothing: no command is executed, nothing is written or
    logged, and the job changes at most in the job parameters that the
    command builder leaves. *)
Theorem run_preprocess_without_command :
  forall w it s jobparams',
    user_get_utility_commands w it UTILITY_BEFORE_PAYLOAD (job s) = inl (None, jobparams') ->
    run_preprocess w it s = (Return 0%Z, with_job (set_jobparams jobparams') s).
Proof.
  intros w it s jobparams' H.
  unfold run_preprocess, try_except, utility_before_payload, get_utility_commands.
  unfold mbind, M_bind, bind, modify_job, modify, get_job, mret, M_ret, ret.
  now rewrite H.
Qed.

Lemma run_preprocess_without_command_witness :
  run_preprocess Scenario.plain_world 1 Scenario.exec0
  = (Return 0%Z, with_job (set_jobparams []) Scenario.exec0).
Proof.
  apply (run_preprocess_without_command Scenario.plain_world 1 Scenario.exec0 []).
  reflexivity.
Defined.

(** X3.  A preprocess step that fails (an exit code other than 0 and 160)
    ends the loop with that exit code: the round stops there, the payload is
    not launched, and [run] returns the exit code of the preprocess. *)
Theorem preprocess_failure_ends_run :
  forall w cycles s0 n it cmd s exit_code s1,
    round_of_run w cycles s0 n it cmd s ->
    run_preprocess w it s = (Return exit_code, s1) ->
    exit_code <> 0%Z -> exit_code <> 160%Z ->
    run_round w cycles it cmd s = (Return (Break exit_code), s1) /\
    (forall rounds, n < rounds -> run w rounds cycles s0 = (Return exit_code, s1)) /\
    exists tr, trace s1 = trace s ++ tr /\ Forall not_launch tr.
Proof.
  intros w cycles s0 n it cmd s exit_code s1 Hround Hpre H0 H160.
  assert (Hbreak : run_round w cycles it cmd s = (Return (Break exit_code), s1)).
  { unfold run_round.
    unfold mbind at 1, M_bind at 1, bind at 1, get_job at 1. cbn beta iota zeta.
    rewrite (bind_return _ _ _ _ _ Hpre).
    unfold mbind at 1, M_bind at 1, bind at 1, get_job at 1. cbn beta iota zeta.
    unfold nonzero. apply Z.eqb_neq in H0, H160. now rewrite H0, H160. }
  split; [exact Hbreak|]. split.
  - intros rounds Hn.
    replace rounds with (n + S (rounds - n - 1)) by lia.
    rewrite (run_round_of_run _ _ _ _ _ _ _ Hround).
    now apply run_loop_break.
  - pose proof (run_preprocess_no_launch w it s) as H. now rewrite Hpre in H.
Qed.

Lemma preprocess_failure_ends_run_witness :
  exists s1,
    run Scenario.failing_preprocess_world 1 1 Scenario.exec0 = (Return 3%Z, s1).
Proof.
  pose (w := Scenario.failing_preprocess_world).
  pose (r0 := run_prologue w Scenario.exec0).
  pose (r1 := run_preprocess w 1 r0.2).
  destruct (preprocess_failure_ends_run w 1 Scenario.exec0 0 1
              "setup.sh; payload.exe" r0.2 3%Z r1.2) as (_ & H & _).
  - exists ("setup.sh; payload.exe" : str), r0.2.
    split; [vm_compute; reflexivity|constructor].
  - vm_compute. reflexivity.
  - discriminate.
  - discriminate.
  - exists r1.2. apply H. lia.
Defined.

(** X4.  When the payload cannot be launched ([run_payload] returns [None])
    the round ends the loop with the exit code of the preprocess step, which
    is 0: [run] reports success, and nothing further is done in the round (no
    supervision, no postprocess, no stopping of utilities). *)
Theorem launch_failure_returns_zero :
  forall w cycles it cmd s s1 s2,
    run_preprocess w it s = (Return 0%Z, s1) ->
    run_payload w it
      (if decide (jobparams (job s) = jobparams (job s1)) then cmd
       else PyStr.replace cmd (jobparams (job s)) (jobparams (job s1))) s1
    = (Return None, s2) ->
    run_round w cycles it cmd s = (Return (Break 0%Z), s2) /\
    forall rounds, run_loop w (S rounds) cycles it cmd s = (Return 0%Z, s2).
Proof.
  intros w cycles it cmd s s1 s2 Hpre Hrun.
  assert (Hbreak : run_round w cycles it cmd s = (Return (Break 0%Z), s2)).
  { unfold run_round.
    unfold mbind at 1, M_bind at 1, bind at 1, get_job at 1. cbn beta iota zeta.
    rewrite (bind_return _ _ _ _ _ Hpre).
    unfold mbind at 1, M_bind at 1, bind at 1, get_job at 1. cbn beta iota zeta.
    change (nonzero 0) with false. cbn beta iota.
    now rewrite (bind_return _ _ _ _ _ Hrun). }
  split; [exact Hbreak|]. intros rounds. now apply run_loop_break.
Qed.

Lemma launch_failure_returns_zero_witness :
  exists s2,
    run_round Scenario.launch_failure_world 1 1 "setup.sh; payload.exe" Scenario.exec0
    = (Return (Break 0%Z), s2) /\
    state (job s2) = "queued".
Proof.
  pose (w := Scenario.launch_failure_world).
  pose (s1 := (run_preprocess w 1 Scenario.exec0).2).
  pose (s2 := (run_payload w 1 "setup.sh; payload.exe" s1).2).
  destruct (launch_failure_returns_zero w 1 1 "setup.sh; payload.exe"
              Scenario.exec0 s1 s2) as (H & _).
  - vm_compute. reflexivity.
  - vm_compute. reflexivity.
  - exists s2. split; [exact H|vm_compute; reflexivity].
Defined.

(** ** A payload that does not succeed *)

(** X5.  Take a job that is not an HPO job and a round in which the payload
    was started and [wait_graceful] returned anything but 0: a non-zero exit
    code, or [None] after a cancellation.  The job is marked failed, the
    postprocess step is skipped (no command is executed after the payload),
    a missing exit code is replaced by -1 with a warning, and the round
    leaves the loop with that exit code after the post-payload timing and
    the stopping of the utilities. *)
Theorem failed_payload_skips_postprocess :
  forall w cycles it cmd s s1 pid s2 exit_code s3,
    is_hpo (job s) = false ->
    (forall utcmd j, user_post_utility_command_action w utcmd j = utilities j) ->
    run_preprocess w it s = (Return 0%Z, s1) ->
    run_payload w it
      (if decide (jobparams (job s) = jobparams (job s1)) then cmd
       else PyStr.replace cmd (jobparams (job s)) (jobparams (job s1))) s1
    = (Return (Some pid), s2) ->
    wait_graceful w cycles pid (with_event (EvSendState (state (job s2))) s2)
    = (Return exit_code, s3) ->
    exit_code <> Some 0%Z ->
    let tr :=
      (match exit_code with None => [EvLog WARNING] | Some _ => [] end)
        ++ [EvTiming PILOT_POST_PAYLOAD]
        ++ stop_events w (clock s3) (map_to_list (utilities (job s3))) in
    run_round w cycles it cmd s
    = (Return (Break (normalized exit_code)),
       with_events tr (with_job (set_state "failed") s3)) /\
    Forall (fun ev => ~ is_execute ev) tr.
Proof.
  intros w cycles it cmd s s1 pid s2 exit_code s3 Hhpo Hhook Hpre Hrun Hwait Hne tr.
  assert (Hhpo3 : is_hpo (job s3) = false).
  { pose proof (run_preprocess_keeps_is_hpo w it s) as K1. rewrite Hpre in K1.
    match type of Hrun with
    | run_payload _ _ ?c _ = _ =>
        pose proof (run_payload_keeps_is_hpo w it c s1) as K2
    end.
    rewrite Hrun in K2.
    pose proof (wait_graceful_keeps is_hpo w cycles pid
                  (with_event (EvSendState (state (job s2))) s2)) as K3.
    rewrite Hwait in K3. unfold keeps in *. simpl in *. congruence. }
  split.
  - unfold run_round.
    unfold mbind at 1, M_bind at 1, bind at 1, get_job at 1. cbn beta iota zeta.
    rewrite (bind_return _ _ _ _ _ Hpre).
    unfold mbind at 1, M_bind at 1, bind at 1, get_job at 1. cbn beta iota zeta.
    change (nonzero 0) with false. cbn beta iota.
    rewrite (bind_return _ _ _ _ _ Hrun).
    unfold mbind at 1, M_bind at 1, bind at 1, get_job at 1. cbn beta iota zeta.
    rewrite (bind_return _ _ _ _ _ (send_state_eq (state (job s2)) s2)).
    rewrite (bind_return _ _ _ _ _ Hwait).
    destruct (decide (exit_code = Some 0%Z)) as [He|_]; [now elim Hne|].
    rewrite (bind_return _ _ _ _ _ (set_pilot_state_eq "failed" s3)).
    set (s4 := with_job (set_state "failed") s3).
    set (s5 := with_events
                 (match exit_code with None => [EvLog WARNING] | Some _ => [] end) s4).
    assert (Hnorm :
      (match exit_code with
       | None => emit (EvLog WARNING);; ret (-1)%Z
       | Some c => ret c
       end : M Z) s4 = (Return (normalized exit_code), s5)).
    { unfold s5. destruct exit_code; simpl.
      - unfold ret. now rewrite with_events_nil.
      - reflexivity. }
    rewrite (bind_return _ _ _ _ _ Hnorm).
    destruct (decide (("failed" : str) = "failed")) as [_|Hf]; [|now elim Hf].
    rewrite bind_ret.
    unfold post_payload, add_to_pilot_timing.
    unfold mbind at 1, M_bind at 1, bind at 1, emit at 1, modify at 1.
    cbn beta iota zeta.
    match goal with
    | |- ?m ?st = (Return (Break ?c), _) =>
        destruct (stop_and_break w c
                    (if decide (jobparams (job s) = jobparams (job s1)) then cmd
                     else PyStr.replace cmd (jobparams (job s)) (jobparams (job s1)))
                    st Hhook Hhpo3)
          as (s6 & H6 & _ & ->)
    end.
    rewrite H6. f_equal. unfold tr, s5, s4, with_events, with_event. simpl.
    f_equal. now rewrite <- !app_assoc.
  - unfold tr. apply Forall_app. split; [destruct exit_code; repeat constructor; auto|].
    constructor; [auto|]. apply Forall_forall. intros ev Hev Hex.
    apply list_elem_of_In, in_stop_events in Hev as (k & u & _ & _ & [->| ->]).
    + unfold signal_attempt in Hex. destruct (ut_proc u); try contradiction.
      destruct (os_getpgid w (clock s3) pid0); [|contradiction].
      destruct (os_killpg w (clock s3) z _); contradiction.
    + contradiction.
Qed.

Lemma failed_payload_skips_postprocess_witness :
  run_round Scenario.cancelled_world 1 1 "setup.sh; payload.exe" Scenario.exec0
  = (Return (Break (-1)%Z),
     with_events [EvLog WARNING; EvTiming PILOT_POST_PAYLOAD]
       (with_job (set_state "failed")
          (wait_graceful Scenario.cancelled_world 1 100
             (with_event (EvSendState "running")
                (run_payload Scenario.cancelled_world 1 "setup.sh; payload.exe"
                   (run_preprocess Scenario.cancelled_world 1 Scenario.exec0).2).2)).2)).
Proof.
  pose (w := Scenario.cancelled_world).
  pose (s1 := (run_preprocess w 1 Scenario.exec0).2).
  pose (s2 := (run_payload w 1 "setup.sh; payload.exe" s1).2).
  pose (s3 := (wait_graceful w 1 100 (with_event (EvSendState "running") s2)).2).
  destruct (failed_payload_skips_postprocess w 1 1 "setup.sh; payload.exe"
              Scenario.exec0 s1 100%Z s2 None s3) as (H & _).
  - reflexivity.
  - reflexivity.
  - vm_compute. reflexivity.
  - vm_compute. reflexivity.
  - vm_compute. reflexivity.
  - discriminate.
  - exact H.
Defined.

(** ** Errors while signalling and writing *)



(** X7.  [write_utility_output] never raises.  It writes the standard output
    and then the standard error of a step to [<step>_stdout.txt] and
    [<step>_stderr.txt] in the work directory, each on its own: a write that
    fails is logged as a warning and the other one is still made.  For the
    steps preprocess and postprocess the executor remembers the two file
    names; for any other step it remembers nothing. *)
Theorem write_utility_output_never_raises :
  forall w it workdir step s,
    let out := path_join workdir (step ++ "_stdout.txt") in
    let err := path_join workdir (step ++ "_stderr.txt") in
    let r := write_utility_output w it workdir step s in
    r.1 = Return tt /\
    trace r.2 = trace s ++ [write_event w it out; write_event w it err] /\
    job r.2 = job s /\
    (preprocess_stdout r.2, preprocess_stderr r.2)
    = (if decide (step = "preprocess")
       then (step ++ "_stdout.txt", step ++ "_stderr.txt")
       else (preprocess_stdout s, preprocess_stderr s)) /\
    (postprocess_stdout r.2, postprocess_stderr r.2)
    = (if decide (step = "postprocess")
       then (step ++ "_stdout.txt", step ++ "_stderr.txt")
       else (postprocess_stdout s, postprocess_stderr s)).
Proof.
  intros w it workdir step s out err r.
  destruct (write_utility_output_effect w it workdir step s)
    as (H1 & H2 & H3 & _ & H4 & H5).
  auto.
Qed.

(** X8.  [execute_utility_command] runs the command once and returns its
    exit code, whatever it is.  An exit code other than 0 and 160 is recorded
    as an error whose code goes by the label (preprocess failure, postprocess
    failure, or unknown payload failure for any other label): the lists of
    the job become what [errors.add_error_code] returns for that code.  The
    exit codes 0 and 160 record no error. *)
Theorem execute_utility_command_classifies :
  forall w it cmd label s,
    let exit_code := (execute w it label cmd).1.1.1 in
    let r := execute_utility_command w it cmd label s in
    r.1 = Return exit_code /\
    (if nonzero exit_code && negb (exit_code =? 160)%Z
     then job_errors r.2 = (add_error_code (failure_code label) (errors s)).1 /\
          errors r.2 = (add_error_code (failure_code label) (errors s)).2
     else job_errors r.2 = job_errors s /\ errors r.2 = errors s) /\
    exists tr, trace r.2 = trace s ++ EvExecute label cmd :: tr /\
               Forall (fun ev => ~ is_execute ev) tr.
Proof.
  intros w it cmd label s exit_code r.
  assert (Heq : exists s3,
    execute_utility_command w it cmd label s = (Return exit_code, s3) /\
    (if nonzero exit_code && negb (exit_code =? 160)%Z
     then job_errors s3 = (add_error_code (failure_code label) (errors s)).1 /\
          errors s3 = (add_error_code (failure_code label) (errors s)).2
     else job_errors s3 = job_errors s /\ errors s3 = errors s) /\
    exists tr, trace s3 = trace s ++ EvExecute label cmd :: tr /\
               Forall (fun ev => ~ is_execute ev) tr).
  { unfold exit_code, execute_utility_command. fold (failure_code label).
    destruct (execute w it label cmd) as [[[c out] err] dt]. cbn [fst snd].
    unfold mbind at 1, M_bind at 1, bind at 1, emit at 1, modify at 1.
    cbn beta iota zeta.
    unfold mbind at 1, M_bind at 1, bind at 1, modify at 1. cbn beta iota zeta.
    set (s1 := with_elapsed dt (with_event (EvExecute label cmd) s)).
    assert (Hrec : exists s2,
      ((if nonzero c
        then emit (EvLog WARNING);;
             (if negb (c =? 160)%Z
              then record_error (failure_code label)
              else ret tt)
        else ret tt) : M unit) s1 = (Return tt, s2) /\
      (if nonzero c && negb (c =? 160)%Z
       then job_errors s2 = (add_error_code (failure_code label) (errors s)).1 /\
            errors s2 = (add_error_code (failure_code label) (errors s)).2
       else job_errors s2 = job_errors s /\ errors s2 = errors s) /\
      exists tr, trace s2 = trace s ++ EvExecute label cmd :: tr /\
                 Forall (fun ev => ~ is_execute ev) tr).
    { destruct (nonzero c); [destruct (negb (c =? 160)%Z)|]; eexists;
        (split; [reflexivity|]); (split; [split; reflexivity|]).
      - exists [EvLog WARNING]. split; [simpl; now rewrite <- app_assoc|].
        repeat constructor; auto.
      - exists [EvLog WARNING]. split; [simpl; now rewrite <- app_assoc|].
        repeat constructor; auto.
      - exists []. split; [reflexivity|constructor]. }
    destruct Hrec as (s2 & H2 & Herr & tr & Htr & Hex).
    rewrite (bind_return _ _ _ _ _ H2).
    unfold mbind at 1, M_bind at 1, bind at 1, get_job at 1. cbn beta iota zeta.
    destruct (write_utility_output_effect w it (workdir (job s2)) label s2)
      as (Hw1 & Hw2 & Hw3 & Hw4 & _).
    unfold mbind, M_bind, bind.
    destruct (write_utility_output w it (workdir (job s2)) label s2) as [o s3].
    cbn [fst snd] in Hw1, Hw2, Hw3, Hw4. subst o.
    exists s3. split; [reflexivity|]. unfold job_errors in *. rewrite Hw3, Hw4.
    split; [exact Herr|].
    eexists. split.
    - rewrite Hw2, Htr, <- app_assoc. reflexivity.
    - apply Forall_app. split; [exact Hex|].
      unfold write_event. repeat constructor;
        match goal with
        | |- context [write_file ?a ?b ?c] => destruct (write_file a b c)
        end; auto. }
  destruct Heq as (s3 & Heq & Herr & Htr).
  unfold r. rewrite Heq. cbn [fst snd]. auto.
Qed.

(** ** More on the setup and the command *)

(** X9.  Only one closing semicolon is taken off.  For a command that, once
    stripped, ends in two semicolons, the final clause is the empty string
    between them, nothing is removed for it, and the setup is the stripped
    command without its last semicolon. *)
Theorem extract_setup_two_semicolons :
  forall cmd body,
    PyStr.strip cmd = body ++ [";"%char; ";"%char] ->
    extract_setup cmd = body ++ [";"%char].
Proof.
  intros cmd body H. unfold extract_setup. rewrite H.
  replace (body ++ [";"%char; ";"%char]) with ((body ++ [";"%char]) ++ [";"%char])
    by now rewrite <- app_assoc.
  rewrite PyStrFacts.endswith_snoc, removelast_last.
  replace (body ++ [";"%char]) with (body ++ ";"%char :: []) by reflexivity.
  rewrite PyStrFacts.split_app_sep.
  rewrite PyStrFacts.last_app_nonempty by discriminate.
  simpl. apply replace_empty_pattern.
Qed.

Lemma extract_setup_two_semicolons_witness :
  extract_setup " setup.sh; run.exe;; " = "setup.sh; run.exe" ++ [";"%char].
Proof.
  apply (extract_setup_two_semicolons " setup.sh; run.exe;; " "setup.sh; run.exe").
  reflexivity.
Defined.

(** X10.  The setup is never longer than the command it is taken from. *)
Theorem extract_setup_length :
  forall cmd, length (extract_setup cmd) <= length cmd.
Proof.
  intros cmd. unfold extract_setup.
  etrans; [apply replace_length_le|].
  assert (Hs : length (PyStr.strip cmd) <= length cmd).
  { unfold PyStr.strip.
    pose proof (PyStrFacts.rstrip_length (PyStr.lstrip cmd)).
    pose proof (PyStrFacts.lstrip_length cmd). lia. }
  destruct (PyStr.endswith (PyStr.strip cmd) ";"); [|exact Hs].
  pose proof (removelast_length_le (PyStr.strip cmd)). lia.
Qed.

(** X11.  [get_payload_command] catches the structured error of the
    command builder only.  Any other exception leaves it as it came, with
    nothing recorded in the error list, and leaves [run] before the loop is
    entered: all that [run] has done is the pre-setup timing. *)
Theorem get_payload_command_other_exception :
  forall w s e,
    user_get_payload_command w (job s) = inr e ->
    (forall code, e <> PilotException code) ->
    get_payload_command w s = (Raise e, s) /\
    forall rounds cycles,
      run w rounds cycles s = (Raise e, with_event (EvTiming PILOT_PRE_SETUP) s).
Proof.
  intros w s e H Hne.
  assert (Hget : forall s', job s' = job s -> get_payload_command w s' = (Raise e, s')).
  { intros s' Hj. unfold get_payload_command.
    unfold mbind at 1, M_bind at 1, bind at 1, get_job at 1. cbn beta iota zeta.
    rewrite Hj, H. destruct e; try reflexivity. now elim (Hne code). }
  split; [now apply Hget|].
  intros rounds cycles. unfold run. unfold mbind, M_bind, bind.
  unfold pre_setup, add_to_pilot_timing, emit, modify. cbn beta iota zeta.
  now rewrite (Hget (with_event (EvTiming PILOT_PRE_SETUP) s) eq_refl).
Qed.

Lemma get_payload_command_other_exception_witness :
  run (Scenario.make_world (inr Exception) Scenario.with_payload_only
         (fun _ _ => 0%Z) Scenario.starts_100 Scenario.never_exits
         Scenario.never_interrupted) 1 1 Scenario.exec0
  = (Raise Exception, with_event (EvTiming PILOT_PRE_SETUP) Scenario.exec0).
Proof.
  apply (get_payload_command_other_exception
           (Scenario.make_world (inr Exception) Scenario.with_payload_only
              (fun _ _ => 0%Z) Scenario.starts_100 Scenario.never_exits
              Scenario.never_interrupted) Scenario.exec0 Exception).
  - reflexivity.
  - discriminate.
Defined.

(** X12.  The setup of the job is derived once, from the command that was
    resolved before the loop, and no round of the loop changes it: however
    [run] ends, the setup of the job is the setup extracted from that
    command. *)
Theorem setup_is_derived_once :
  forall w s cmd s2,
    run_prologue w s = (Return cmd, s2) ->
    setup (job s2) = extract_setup cmd /\
    forall rounds cycles,
      setup (job (run w rounds cycles s).2) = extract_setup cmd.
Proof.
  intros w s cmd s2 Hpro.
  assert (Hs2 : setup (job s2) = extract_setup cmd).
  { unfold run_prologue, pre_setup, post_setup, add_to_pilot_timing in Hpro.
    unfold mbind at 1, M_bind at 1, bind at 1, emit at 1, modify at 1 in Hpro.
    cbn beta iota zeta in Hpro.
    unfold mbind at 1, M_bind at 1, bind at 1 in Hpro.
    destruct (get_payload_command w (with_event (EvTiming PILOT_PRE_SETUP) s))
      as [[c| |] s1]; try discriminate Hpro.
    unfold mbind, M_bind, bind, emit, modify_job, modify, mret, M_ret, ret in Hpro.
    cbn beta iota zeta in Hpro. injection Hpro as <- <-. reflexivity. }
  split; [exact Hs2|].
  intros rounds cycles.
  rewrite run_prologue_loop, (bind_return _ _ _ _ _ Hpro).
  rewrite <- Hs2. apply run_loop_keeps_setup.
Qed.

Lemma setup_is_derived_once_witness :
  setup (job (run Scenario.hpo_world 2 1 Scenario.hpo_exec).2)
  = extract_setup "setup.sh; payload.exe".
Proof.
  destruct (setup_is_derived_once Scenario.hpo_world Scenario.hpo_exec
              "setup.sh; payload.exe"
              (run_prologue Scenario.hpo_world Scenario.hpo_exec).2) as (_ & H).
  - vm_compute. reflexivity.
  - apply H.
Defined.

(** ** Utilities, supervision without cancellation, and the job parameters *)



(** X14.  While the flag is clear [wait_graceful] sends no signal and never
    raises: all it does is sleep, a whole number of rounds of 60.1 seconds,
    and it either returns the exit code that a poll has found or is still
    waiting (all the rounds of the model are used up and the payload has not
    been found ended). *)
Theorem wait_graceful_clear_flag :
  forall w pid,
    (forall t, graceful_stop_is_set w t = false) ->
    forall cycles s,
      exists k,
        k <= cycles /\
        (wait_graceful w cycles pid s).2
        = advanced (concat (repeat quiet_cycle k)) (601 * k) s /\
        Forall (fun ev => ~ is_signal ev) (concat (repeat quiet_cycle k)) /\
        ((wait_graceful w cycles pid s).1 = Running /\ k = cycles /\
         (forall j, j < k -> proc_poll w pid (clock s + 601 * S j) = None) \/
         exists c, (wait_graceful w cycles pid s).1 = Return (Some c) /\
                   0 < k /\ proc_poll w pid (clock s + 601 * k) = Some c).
Proof.
  intros w pid Hclear. unfold wait_graceful.
  assert (Hquiet : forall k, Forall (fun ev => ~ is_signal ev)
                               (concat (repeat quiet_cycle k))).
  { intros k. apply Forall_concat, Forall_forall. intros x Hx.
    apply list_elem_of_In, repeat_spec in Hx as ->.
    constructor; [auto|]. apply Forall_forall. intros ev Hev.
    apply list_elem_of_In, repeat_spec in Hev as ->. auto. }
  induction cycles as [|cycles IH]; intros s.
  - exists 0. split; [lia|]. split; [simpl; now rewrite advanced_nil|].
    split; [apply Hquiet|]. left. split; [reflexivity|]. split; [reflexivity|].
    intros j Hj. lia.
  - rewrite wait_graceful_loop_quiet by (intros; apply Hclear).
    destruct (proc_poll w pid (clock s + 601)) as [c|] eqn:Hp.
    + exists 1. split; [lia|].
      split; [cbn [snd repeat concat]; now rewrite app_nil_r, Nat.mul_1_r|].
      split; [apply Hquiet|]. right. exists c.
      split; [reflexivity|]. split; [lia|].
      now replace (clock s + 601 * 1) with (clock s + 601) by lia.
    + destruct (IH (advanced quiet_cycle 601 s)) as (k & Hk & Hs & _ & Hout).
      exists (S k). split; [lia|]. split.
      * rewrite Hs, advanced_advanced. cbn [repeat concat]. f_equal. lia.
      * split; [apply Hquiet|].
        destruct Hout as [(Hr & -> & Hnone)|(c & Hr & Hpos & Hsome)].
        -- left. split; [exact Hr|]. split; [reflexivity|].
           intros [|j] Hj.
           ++ now replace (clock s + 601 * 1) with (clock s + 601) by lia.
           ++ specialize (Hnone j ltac:(lia)). rewrite <- Hnone. f_equal.
              unfold advanced. cbn [clock]. lia.
        -- right. exists c. split; [exact Hr|]. split; [lia|].
           rewrite <- Hsome. f_equal. unfold advanced. cbn [clock]. lia.
Qed.

Lemma wait_graceful_clear_flag_witness :
  exists k,
    k <= 2 /\
    (wait_graceful Scenario.undisturbed_world 2 100 Scenario.exec0).2
    = advanced (concat (repeat quiet_cycle k)) (601 * k) Scenario.exec0.
Proof.
  destruct (wait_graceful_clear_flag Scenario.undisturbed_world 100
              WorkflowFacts.never_interrupted_spec 2 Scenario.exec0)
    as (k & H1 & H2 & _).
  exists k. split; [exact H1|exact H2].
Defined.


